(** * render_exporter: the metric collection and aggregation pipeline

    A shallow embedding of [src/metrics.ts] (batching, collection, formatting,
    the request handler), of [src/server.ts] (configuration, authentication,
    the choice of the guard in [start]) and of [src/resourceCache.ts] (the
    resource cache), with the properties of the specification proved over
    it.

    Conventions of the embedding.
    - A JavaScript [string] is a Rocq [string]; an array is a [list].
    - A JavaScript [number] that only flows through the program (metric
      values, the port) is an element of the abstract type [number] of the
      runtime interface [JsRuntime]; the built-ins the program calls but does
      not define ([String.prototype.localeCompare], number-to-string
      conversion, [parseInt], [Date.prototype.toISOString]) are operations of
      that interface.  Batch sizes and array indices are natural numbers.
    - An object whose own properties are enumerated ([Record<string,string>])
      is the list of its own properties in creation order.
    - Metric definitions are mutable objects: they live in a heap and are
      passed by reference.
    - An [async] function is a state transformer over the [world] (heap, log
      of upstream calls, clock) that returns the state its promise ends in.
      A call of the upstream API client is a function of its arguments that
      resolves or rejects.
    - A promise that is rejected and that nobody awaits or catches ends the
      process, as Node does by default.
    - Diagnostic logging ([debug], [logger.debug], [logger.error],
      [console.error]) has no effect on any value and is left out. *)

From Stdlib Require Import ZArith Lia String Ascii List DecimalString.
From stdpp Require Import base tactics option list strings gmap sorting.

Local Open Scope string_scope.
Local Open Scope list_scope.

(** ** Strings and arrays of the runtime *)

(** The line feed, the escape [\n] of the source. *)
Definition LF : string := String (ascii_of_nat 10) EmptyString.

(** The double quote character of the source's template literals. *)
Definition DQUOTE : string := String (ascii_of_nat 34) EmptyString.

(** [Array.prototype.join] on an array of strings. *)
Fixpoint Array_join (separator : string) (array : list string) : string :=
  match array with
  | [] => EmptyString
  | [x] => x
  | x :: rest => x +:+ separator +:+ Array_join separator rest
  end.

(** [Array.prototype.slice(start, end)] for [0 <= start <= end]. *)
Definition slice {T : Type} (array : list T) (start stop : nat) : list T :=
  take (stop - start) (drop start array).

(** ** Batching: [chunkArray] *)

(** The [for] loop of [chunkArray]: [i] is the loop index and [chunks] the
    array built so far.  The loop does not terminate when [chunkSize] is [0]
    and the array is not empty; [fuel] bounds the number of iterations and
    [None] stands for a loop that is still running when the fuel is spent. *)
Fixpoint chunkArray_loop {T : Type} (fuel : nat) (array : list T)
    (chunkSize i : nat) (chunks : list (list T)) : option (list (list T)) :=
  if decide (i < length array) then
    match fuel with
    | O => None
    | S fuel' =>
        chunkArray_loop fuel' array chunkSize (i + chunkSize)
          (chunks ++ [slice array i (i + chunkSize)])
    end
  else Some chunks.

(** [chunkArray(array, chunkSize)].  A loop that advances by at least one
    runs at most [array.length] times, so this fuel is enough for every
    positive chunk size. *)
Definition chunkArray {T : Type} (array : list T) (chunkSize : nat)
    : option (list (list T)) :=
  chunkArray_loop (length array) array chunkSize 0 [].

(** [ceil(n / b)] on natural numbers. *)
Definition ceil_div (n b : nat) : nat := (n + b - 1) / b.

(** The first [k] chunks of size [B] of an array: chunk [j] is the slice
    from [j * B] to [j * B + B]. *)
Definition chunks_upto {T : Type} (array : list T) (B k : nat) : list (list T) :=
  map (fun j => slice array (j * B) (j * B + B)) (seq 0 k).

(** ** The runtime interface *)

(** What the program takes from the JavaScript runtime without defining it.
    [localeCompare a b] is [a.localeCompare(b)]: negative, zero or positive.
    [toISOString ms] is [new Date(ms).toISOString()].  [Number_ofLength] is
    the number that an array length is, [parseInt s] is [parseInt(s, 10)]. *)
Class JsRuntime := {
  number : Type;
  Number_toString : number -> string;
  Number_ofLength : nat -> number;
  parseInt : string -> number;
  localeCompare : string -> string -> Z;
  toISOString : Z -> string;
}.

(** A string is truthy when it is not empty. *)
Definition truthy (s : string) : bool := negb (bool_decide (s = EmptyString)).

(** [a || b] on a possibly undefined string. *)
Definition or_else (a : option string) (b : string) : string :=
  match a with
  | Some s => if truthy s then s else b
  | None => b
  end.

(** A possibly undefined string inside a template literal. *)
Definition template (a : option string) : string :=
  match a with
  | Some s => s
  | None => "undefined"
  end.

(** *** Sorting *)

(** [Array.prototype.sort(compare)] is a stable sort.  For a consistent
    comparator the result of a stable sort is unique, and insertion sort
    computes it: [x] goes behind [y] exactly when [compare(x, y) > 0]. *)
Fixpoint sort_insert {A : Type} (compare : A -> A -> Z) (x : A) (sorted : list A)
    : list A :=
  match sorted with
  | [] => [x]
  | y :: rest =>
      if (0 <? compare x y)%Z then y :: sort_insert compare x rest
      else x :: y :: rest
  end.

Fixpoint Array_sort {A : Type} (compare : A -> A -> Z) (array : list A) : list A :=
  match array with
  | [] => []
  | x :: rest => sort_insert compare x (Array_sort compare rest)
  end.

(** *** Objects with string properties *)

(** The own properties of an object, in creation order.  Keys are unique. *)
Abbreviation JsObject := (list (string * string)) (only parsing).

(** [o[key]] for an own property. *)
Fixpoint Object_get (o : JsObject) (key : string) : option string :=
  match o with
  | [] => None
  | (k, v) :: rest => if decide (k = key) then Some v else Object_get rest key
  end.

(** Writing an own property: an existing key keeps its place and takes the
    new value, a new key is created behind the others. *)
Fixpoint Object_put (o : JsObject) (key val : string) : JsObject :=
  match o with
  | [] => [(key, val)]
  | (k, v) :: rest =>
      if decide (k = key) then (k, val) :: rest
      else (k, v) :: Object_put rest key val
  end.

(** [o[key] = val] on an object created by an object literal, for a string
    [val].  The key [__proto__] is the accessor of [Object.prototype]; its
    setter ignores a value that is neither an object nor null, so that
    assignment creates no property. *)
Definition Object_set (o : JsObject) (key val : string) : JsObject :=
  if decide (key = "__proto__") then o else Object_put o key val.

(** The value of a decimal digit. *)
Definition digit_value (c : ascii) : option N :=
  let n := N_of_ascii c in
  if ((48 <=? n) && (n <=? 57))%N then Some (n - 48)%N else None.

Fixpoint parse_digits (s : string) (acc : N) : option N :=
  match s with
  | EmptyString => Some acc
  | String c rest =>
      match digit_value c with
      | Some d => parse_digits rest (acc * 10 + d)%N
      | None => None
      end
  end.

(** The array index that a property key denotes, if any: a canonical decimal
    numeral below [2^32 - 1]. *)
Definition array_index (key : string) : option N :=
  match key with
  | EmptyString => None
  | String c rest =>
      if bool_decide (c = "0"%char) && negb (bool_decide (rest = EmptyString))
      then None
      else
        match parse_digits key 0 with
        | Some n => if (n <? 4294967295)%N then Some n else None
        | None => None
        end
  end.

Definition is_array_index (entry : string * string) : bool :=
  match array_index entry.1 with Some _ => true | None => false end.

Definition compare_index (a b : string * string) : Z :=
  (Z.of_N (default 0%N (array_index a.1)) - Z.of_N (default 0%N (array_index b.1)))%Z.

(** [Object.entries(o)]: the array-index keys in ascending numeric order,
    then the other keys in creation order. *)
Definition Object_entries (o : JsObject) : list (string * string) :=
  Array_sort compare_index (filter (fun e => is_array_index e = true) o)
  ++ filter (fun e => is_array_index e = false) o.

(** ** Data model *)

Module Service.
Record t := mk { id : string; name : string }.
End Service.

(** A label of an upstream series.  The source tests both fields for
    being defined, so both may be undefined ([None]). *)
Module MetricLabel.
Record t := mk { field : option string; value : option string }.
End MetricLabel.

Module DataPoint.
Record t `{JsRuntime} := mk { timestamp : string; value : number }.
End DataPoint.

(** An upstream series.  [labels] is read with [?.] and may be undefined. *)
Module MetricResponse.
Record t `{JsRuntime} := mk {
  labels : option (list MetricLabel.t);
  unit : string;
  values : list DataPoint.t;
}.
End MetricResponse.

Module MetricDefinition.
Record t := mk { name : string; help : string; type : string }.
End MetricDefinition.

Module MetricValue.
Record t `{JsRuntime} := mk { labels : JsObject; value : number }.
End MetricValue.

(** A reference to a metric definition object. *)
Abbreviation loc := nat (only parsing).

Module MetricResult.
Record t `{JsRuntime} := mk { definition : loc; values : list MetricValue.t }.
End MetricResult.

Module Config.
Record Auth := mkAuth {
  username : option string;
  password : option string;
  bearer_token : option string;
}.
Record t `{JsRuntime} := mk {
  env : string;
  renderApiToken : string;
  port : number;
  serviceNameFilter : string;
  batchSize : nat;
  auth : Auth;
}.
End Config.

(** ** Promises, errors and the world *)

(** A thrown value: an [Error] made by this program, or the reason an
    upstream call was rejected with. *)
Inductive exn : Type :=
  | Error (message : string)
  | UpstreamFailure (reason : string).

(** The eventual outcome of a call of the upstream API client. *)
Inductive settled (A : Type) : Type :=
  | Resolves (result : A)
  | Rejects (reason : string).
Arguments Resolves {A} result.
Arguments Rejects {A} reason.

(** The state a promise ends in.  [Pending] is a promise that never
    settles: the body of the async function does not terminate. *)
Inductive promise (A : Type) : Type :=
  | Fulfilled (result : A)
  | Rejected (reason : exn)
  | Pending.
Arguments Fulfilled {A} result.
Arguments Rejected {A} reason.
Arguments Pending {A}.

Definition settle {A : Type} (r : settled A) : promise A :=
  match r with
  | Resolves a => Fulfilled a
  | Rejects reason => Rejected (UpstreamFailure reason)
  end.

(** [Promise.all]: rejected as soon as one promise is rejected (with the
    reason of the first rejected promise of the array), fulfilled with all
    results when all are fulfilled. *)
Fixpoint Promise_all {A : Type} (promises : list (promise A)) : promise (list A) :=
  match promises with
  | [] => Fulfilled []
  | p :: rest =>
      match p, Promise_all rest with
      | Rejected e, _ => Rejected e
      | _, Rejected e => Rejected e
      | Fulfilled a, Fulfilled results => Fulfilled (a :: results)
      | _, _ => Pending
      end
  end.

(** [Promise.all] on an array of three promises of different types. *)
Definition Promise_all3 {A B C : Type} (a : promise A) (b : promise B)
    (c : promise C) : promise (A * B * C) :=
  match a, b, c with
  | Rejected e, _, _ => Rejected e
  | _, Rejected e, _ => Rejected e
  | _, _, Rejected e => Rejected e
  | Fulfilled x, Fulfilled y, Fulfilled z => Fulfilled (x, y, z)
  | _, _, _ => Pending
  end.

(** One query sent to the upstream metrics API. *)
Record UpstreamCall := mkCall {
  call_fn : string;
  call_token : string;
  call_ids : list string;
  call_startTime : string;
}.

(** What an async function can read and change: the heap of metric
    definition objects, the log of upstream queries issued so far, and the
    clock ([Date.now()], in milliseconds). *)
Record world := mkWorld {
  heap : list MetricDefinition.t;
  calls : list UpstreamCall;
  Date_now : Z;
}.

Definition Async (A : Type) : Type := world -> world * promise A.

(** A new object. *)
Definition alloc (d : MetricDefinition.t) (w : world) : loc * world :=
  (length (heap w), mkWorld (heap w ++ [d]) (calls w) (Date_now w)).

(** Reading an object; references of the program never dangle. *)
Definition deref (w : world) (l : loc) : MetricDefinition.t :=
  default (MetricDefinition.mk "undefined" "undefined" "undefined") (heap w !! l).

(** [l.name = name]. *)
Definition set_name (l : loc) (name : string) (w : world) : world :=
  mkWorld
    (alter (fun d => MetricDefinition.mk name (MetricDefinition.help d)
                       (MetricDefinition.type d)) l (heap w))
    (calls w) (Date_now w).

Definition log_calls (cs : list UpstreamCall) (w : world) : world :=
  mkWorld (heap w) (calls w ++ cs) (Date_now w).

(** A query function of the upstream API client: its [name] property and its
    outcome on given arguments. *)
Record MetricFn `{JsRuntime} := mkMetricFn {
  fn_name : string;
  fn_call : string -> list string -> string
            -> settled (list (option MetricResponse.t));
}.

(** The functions imported from the API client. *)
Record RenderApi `{JsRuntime} := mkRenderApi {
  getServices : string -> string -> settled (list Service.t);
  instanceCount : MetricFn;
  cpuUsage : MetricFn;
  memoryUsage : MetricFn;
  bandwidth : MetricFn;
  activeConnections : MetricFn;
}.

(** ** Formatting and collection: [src/metrics.ts] *)

Section Metrics.
Context `{JsRuntime}.

(** [formatMetricHeader(metric)]. *)
Definition formatMetricHeader (metric : MetricDefinition.t) : string :=
  "# HELP " +:+ MetricDefinition.name metric +:+ " " +:+ MetricDefinition.help metric
  +:+ LF +:+ "# TYPE " +:+ MetricDefinition.name metric +:+ " "
  +:+ MetricDefinition.type metric +:+ LF.

(** The comparator given to [sort]: [keyA.localeCompare(keyB)]. *)
Definition compareKeys (a b : string * string) : Z := localeCompare a.1 b.1.

(** One label, rendered as the key, an equals sign and the quoted value. *)
Definition formatLabel (entry : string * string) : string :=
  entry.1 +:+ "=" +:+ DQUOTE +:+ entry.2 +:+ DQUOTE.

(** The entries of a label object in the order they are rendered. *)
Definition sortedLabels (labels : JsObject) : list (string * string) :=
  Array_sort compareKeys (Object_entries labels).

(** The text between the braces of a line. *)
Definition formatLabels (labels : JsObject) : string :=
  Array_join ", " (map formatLabel (sortedLabels labels)).

(** The line of one value. *)
Definition formatMetricLine (metricName : string) (value : MetricValue.t) : string :=
  metricName +:+ "{" +:+ formatLabels (MetricValue.labels value) +:+ "} "
  +:+ Number_toString (MetricValue.value value).

(** [formatMetricValues(metricName, values)]. *)
Definition formatMetricValues (metricName : string) (values : list MetricValue.t)
    : string :=
  Array_join LF (map (formatMetricLine metricName) values) +:+ LF.

(** [formatMetricResult(result)]; the definition is read through its
    reference. *)
Definition formatMetricResult (w : world) (result : MetricResult.t) : string :=
  if decide (length (MetricResult.values result) = 0) then EmptyString
  else
    let output := formatMetricHeader (deref w (MetricResult.definition result)) in
    output +:+ formatMetricValues
                 (MetricDefinition.name (deref w (MetricResult.definition result)))
                 (MetricResult.values result).

(** The [Map] from identifier to service built by [forEach]/[set]. *)
Definition buildServiceMap (services : list Service.t) : gmap string Service.t :=
  foldl (fun m service => <[Service.id service := service]> m) ∅ services.

(** [metric.labels.find((x) => x.field == "resource")?.value || ""]. *)
Definition resourceKey (labels : list MetricLabel.t) : string :=
  or_else
    (mbind MetricLabel.value
       (List.find (fun x => bool_decide (MetricLabel.field x = Some "resource")) labels))
    EmptyString.

(** [serviceMap.get(...)?.name || "unknown"]. *)
Definition resolveServiceName (serviceMap : gmap string Service.t)
    (labels : list MetricLabel.t) : string :=
  or_else (Service.name <$> serviceMap !! resourceKey labels) "unknown".

(** The body of [metric.labels.forEach]: one upstream label copied. *)
Definition copyLabel (labels : JsObject) (label : MetricLabel.t) : JsObject :=
  match MetricLabel.field label, MetricLabel.value label with
  | Some field, Some value =>
      if truthy field then Object_set labels field value else labels
  | _, _ => labels
  end.

(** The body of the [forEach] over the flattened responses: the value pushed
    for one series, or [None] when the series is skipped. *)
Definition toMetricValue (serviceMap : gmap string Service.t)
    (metric : MetricResponse.t) : option MetricValue.t :=
  match MetricResponse.labels metric with
  | Some (label :: more) =>
      match last (MetricResponse.values metric) with
      | Some point =>
          let latestValue := DataPoint.value point in
          let labels : JsObject :=
            [("unit", MetricResponse.unit metric);
             ("service_name", resolveServiceName serviceMap (label :: more))] in
          Some (MetricValue.mk _ (foldl copyLabel labels (label :: more)) latestValue)
      | None => None
      end
  | _ => None
  end.

(** The values array after the loop over [allMetricsResults.flat().filter(Boolean)]. *)
Definition mergeResults (serviceMap : gmap string Service.t)
    (allMetricsResults : list (list (option MetricResponse.t))) : list MetricValue.t :=
  omap (toMetricValue serviceMap) (omap id (concat allMetricsResults)).

(** The message of the error thrown for an empty merge. *)
Definition emptyResultMessage (metricFn : MetricFn) (services : list Service.t)
    : string :=
  "Empty metrics result " +:+ fn_name metricFn +:+ " "
  +:+ Array_join ","
        (map (fun svc => "«" +:+ Service.id svc +:+ " " +:+ Service.name svc +:+ "»")
           services).

(** [collectMetrics(services, apiToken, batchSize, metricFn, metricDefinition,
    startTime)]. *)
Definition collectMetrics (services : list Service.t) (apiToken : string)
    (batchSize : nat) (metricFn : MetricFn) (metricDefinition : loc)
    (startTime : option string) : Async MetricResult.t :=
  fun w =>
  let serviceMap := buildServiceMap services in
  match chunkArray (map Service.id services) batchSize with
  | None => (w, Pending)
  | Some idBatches =>
      let twoMinutesAgo := toISOString (Date_now w - 2 * 60 * 1000) in
      let start := or_else startTime twoMinutesAgo in
      let allMetricsPromises :=
        map (fun batch => settle (fn_call metricFn apiToken batch start)) idBatches in
      let w1 :=
        log_calls (map (fun batch => mkCall (fn_name metricFn) apiToken batch start)
                     idBatches) w in
      match Promise_all allMetricsPromises with
      | Pending => (w1, Pending)
      | Rejected e => (w1, Rejected e)
      | Fulfilled allMetricsResults =>
          let values := mergeResults serviceMap allMetricsResults in
          match values with
          | [] => (w1, Rejected (Error (emptyResultMessage metricFn services)))
          | first :: _ =>
              let '(updatedDefinition, w2) := alloc (deref w1 metricDefinition) w1 in
              let w3 :=
                set_name updatedDefinition
                  (MetricDefinition.name (deref w2 updatedDefinition) +:+ "_"
                   +:+ template (Object_get (MetricValue.labels first) "unit"))
                  w2 in
              (w3, Fulfilled (MetricResult.mk _ updatedDefinition values))
          end
      end
  end.

(** [collectServiceCountMetric(services)]: synchronous, it returns its
    result and not a promise. *)
Definition collectServiceCountMetric (services : list Service.t) (w : world)
    : world * MetricResult.t :=
  let '(definition, w1) :=
    alloc (MetricDefinition.mk "render_service_count" "Total number of services"
             "gauge") w in
  (w1, MetricResult.mk _ definition
         [MetricValue.mk _ [] (Number_ofLength (length services))]).

Definition collectInstanceCountMetrics (api : RenderApi) (services : list Service.t)
    (apiToken : string) (batchSize : nat) : Async MetricResult.t :=
  fun w =>
  let '(definition, w1) :=
    alloc (MetricDefinition.mk "render_service_instance_count"
             "Current number of instances for a Render service" "gauge") w in
  collectMetrics services apiToken batchSize (instanceCount api) definition None w1.

Definition collectCPUMetrics (api : RenderApi) (services : list Service.t)
    (apiToken : string) (batchSize : nat) : Async MetricResult.t :=
  fun w =>
  let '(definition, w1) :=
    alloc (MetricDefinition.mk "render_service_cpu_usage"
             "CPU usage for a Render service" "gauge") w in
  collectMetrics services apiToken batchSize (cpuUsage api) definition None w1.

Definition collectMemoryMetrics (api : RenderApi) (services : list Service.t)
    (apiToken : string) (batchSize : nat) : Async MetricResult.t :=
  fun w =>
  let '(definition, w1) :=
    alloc (MetricDefinition.mk "render_service_memory_usage"
             "Memory usage for a Render service in bytes" "gauge") w in
  collectMetrics services apiToken batchSize (memoryUsage api) definition None w1.

(** [svc.id.startsWith(prefix)]. *)
Definition startsWith (prefix : string) (svc : Service.t) : bool :=
  String.prefix prefix (Service.id svc).

Definition collectBandwidth (api : RenderApi) (services : list Service.t)
    (apiToken : string) (batchSize : nat) : Async MetricResult.t :=
  fun w =>
  let '(definition, w1) :=
    alloc (MetricDefinition.mk "render_service_bandwidth"
             "Bandwidth used by a render service" "gauge") w in
  let relevantServices := List.filter (startsWith "srv-") services in
  if decide (length relevantServices = 0) then
    (w1, Fulfilled (MetricResult.mk _ definition []))
  else
    let hourAgo := toISOString (Date_now w1 - 60 * 60 * 1000) in
    collectMetrics relevantServices apiToken batchSize (bandwidth api) definition
      (Some hourAgo) w1.

Definition collectActiveConnections (api : RenderApi) (services : list Service.t)
    (apiToken : string) (batchSize : nat) : Async MetricResult.t :=
  fun w =>
  let '(definition, w1) :=
    alloc (MetricDefinition.mk "render_service_active_connections"
             "Active connections for redis or postgres servers" "gauge") w in
  let relevantServices :=
    List.filter (fun svc => startsWith "red-" svc || startsWith "dpg-" svc) services in
  if decide (length relevantServices = 0) then
    (w1, Fulfilled (MetricResult.mk _ definition []))
  else
    collectMetrics relevantServices apiToken batchSize (activeConnections api)
      definition None w1.

(** *** The request handler *)

(** [promise.catch((err) => null)]: a rejection becomes the value [null]. *)
Definition catch_null {A : Type} (m : Async A) : Async (option A) :=
  fun w =>
  match m w with
  | (w', Fulfilled a) => (w', Fulfilled (Some a))
  | (w', Rejected _) => (w', Fulfilled None)
  | (w', Pending) => (w', Pending)
  end.

(** The elements of an array literal of promises are evaluated from left to
    right, and an async function has issued its upstream queries when it
    reaches its first [await]: the queries are logged in launch order.  The
    model also runs what follows the [await] in launch order; that part only
    creates new objects, so its interleaving changes no value. *)
Fixpoint launch {A : Type} (ms : list (Async A)) (w : world)
    : world * list (promise A) :=
  match ms with
  | [] => (w, [])
  | m :: rest =>
      let '(w1, p) := m w in
      let '(w2, ps) := launch rest w1 in
      (w2, p :: ps)
  end.

(** The array given to [Promise.all] by the handler. *)
Definition launchedCollectors (config : Config.t) (api : RenderApi)
    (services : list Service.t) : list (Async (option MetricResult.t)) :=
  [ catch_null (collectInstanceCountMetrics api services
                  (Config.renderApiToken config) (Config.batchSize config));
    (fun w => let '(w1, r) := collectServiceCountMetric services w in
              (w1, Fulfilled (Some r)));
    catch_null (collectCPUMetrics api services
                  (Config.renderApiToken config) (Config.batchSize config));
    catch_null (collectMemoryMetrics api services
                  (Config.renderApiToken config) (Config.batchSize config));
    catch_null (collectBandwidth api services
                  (Config.renderApiToken config) (Config.batchSize config));
    catch_null (collectActiveConnections api services
                  (Config.renderApiToken config) (Config.batchSize config)) ].

(** [metricResults.filter((x) => x != null)]. *)
Definition nonNull {A : Type} (array : list (option A)) : list A := omap id array.

(** The text built from the results: formatted, empty outputs dropped,
    joined by a line feed. *)
Definition metricsOutput (w : world) (metricResults : list (option MetricResult.t))
    : string :=
  Array_join LF
    (List.filter (fun output => (0 <? String.length output)%nat)
       (map (formatMetricResult w) (nonNull metricResults))).

End Metrics.

(** What the HTTP framework sends: status code (200 unless set), headers
    set by the handler, body. *)
Module Reply.
Record t := mk {
  statusCode : nat;
  headers : list (string * string);
  payload : string;
}.
End Reply.

Section Handler.
Context `{JsRuntime}.

(** The handler after [metricResults] is known. *)
Definition respond (w : world) (metricResults : list (option MetricResult.t))
    : Reply.t :=
  if decide (length (nonNull metricResults) = 0) then
    Reply.mk 500 [] "Error fetching metrics: all collectors failed"
  else
    Reply.mk 200 [("Content-Type", "text/plain")] (metricsOutput w metricResults).

(** The function returned by [createMetricsHandler(config)]: the reply to one
    scrape request.  A rejection inside the [try] block is answered by the
    [catch] block. *)
Definition metrics (config : Config.t) (api : RenderApi) : Async Reply.t :=
  fun w =>
  match getServices api (Config.renderApiToken config)
          (Config.serviceNameFilter config) with
  | Rejects error => (w, Fulfilled (Reply.mk 500 [] "Error fetching metrics"))
  | Resolves services =>
      let '(w', promises) := launch (launchedCollectors config api services) w in
      match Promise_all promises with
      | Pending => (w', Pending)
      | Rejected error => (w', Fulfilled (Reply.mk 500 [] "Error fetching metrics"))
      | Fulfilled metricResults => (w', Fulfilled (respond w' metricResults))
      end
  end.

End Handler.

(** ** Configuration: [src/server.ts] *)

Section Configuration.
Context `{JsRuntime}.

(** [requiredEnvVar(name)], reading [process.env]. *)
Definition requiredEnvVar (env : gmap string string) (name : string) : exn + string :=
  match env !! name with
  | Some value =>
      if truthy value then inr value
      else inl (Error ("Required environment variable " +:+ name +:+ " is not set"))
  | None => inl (Error ("Required environment variable " +:+ name +:+ " is not set"))
  end.

(** [loadConfig()]: the batch size is the constant 50. *)
Definition loadConfig (env : gmap string string) : exn + Config.t :=
  match requiredEnvVar env "NODE_ENV" with
  | inl e => inl e
  | inr nodeEnv =>
      match requiredEnvVar env "RENDER_API_TOKEN" with
      | inl e => inl e
      | inr token =>
          inr (Config.mk _ nodeEnv token
                 (parseInt (or_else (env !! "PORT") "3000"))
                 (or_else (env !! "SERVICE_NAME_FILTER") EmptyString)
                 50
                 (Config.mkAuth (env !! "AUTH_USERNAME") (env !! "AUTH_PASSWORD")
                    (env !! "AUTH_BEARER_TOKEN")))
      end
  end.

End Configuration.

(** ** The resource cache: [src/resourceCache.ts] *)

(** Modelled from the spec: the types [Redis] and [Postgres] of the API
    client are not part of the repository; a resource has an identifier and
    a display name. *)
Module Redis.
Record t := mk { id : string; name : string }.
End Redis.

Module Postgres.
Record t := mk { id : string; name : string }.
End Postgres.

Module ResourceCache.

(** The fields of the class. *)
Record t := mk {
  services : list Service.t;
  redises : list Redis.t;
  postgreses : list Postgres.t;
  lastRefreshed : option Z;
  apiToken : string;
  serviceNameFilter : string;
  maxAge : Z;
}.

(** The three list functions of the API client, as they answer one refresh. *)
Record Api := mkApi {
  getServices : string -> string -> settled (list Service.t);
  listRedis : string -> string -> settled (list Redis.t);
  listPostgres : string -> string -> settled (list Postgres.t);
}.

(** The object returned by [getResources]. *)
Record Resources := mkResources {
  r_services : list Service.t;
  r_redises : list Redis.t;
  r_postgreses : list Postgres.t;
}.

(** The constructor; [maxAgeMs] defaults to one hour. *)
Definition new (apiToken serviceNameFilter : string) (maxAgeMs : option Z) : t :=
  mk [] [] [] None apiToken serviceNameFilter (default (60 * 60 * 1000)%Z maxAgeMs).

(** [isStale()], at time [now]. *)
Definition isStale (now : Z) (this : t) : bool :=
  match lastRefreshed this with
  | None => true
  | Some refreshed => (maxAge this <? now - refreshed)%Z
  end.

(** [refreshResources()]: the state after the promise has settled, and how it
    settled.  [now] is the time when the three fetches have resolved. *)
Definition refreshResources (api : Api) (now : Z) (this : t) : t * promise () :=
  match
    Promise_all3
      (settle (getServices api (apiToken this) (serviceNameFilter this)))
      (settle (listRedis api (apiToken this) (serviceNameFilter this)))
      (settle (listPostgres api (apiToken this) (serviceNameFilter this)))
  with
  | Fulfilled (newServices, newRedises, newPostgreses) =>
      (mk newServices newRedises newPostgreses (Some now)
          (apiToken this) (serviceNameFilter this) (maxAge this),
       Fulfilled ())
  | Rejected error => (this, Rejected error)
  | Pending => (this, Pending)
  end.

(** [getResources()]: whether a refresh was scheduled with [setTimeout], and
    the object the promise is fulfilled with. *)
Definition getResources (now : Z) (this : t) : bool * Resources :=
  (isStale now this, mkResources (services this) (redises this) (postgreses this)).

(** The process around one cache: the cache, the number of scheduled
    refreshes that have not run yet, and the error the process has ended
    with, if it has ended.  [refreshResources] throws its error again, and
    the callback that [getResources] gives to [setTimeout] neither awaits nor
    catches the promise: the rejection of a scheduled refresh is an unhandled
    rejection, on which Node ends the process. *)
Record loop := mkLoop { cache : t; timers : nat; exited : option exn }.

(** What can happen: a caller reads the resources, or a scheduled refresh
    runs and settles against the answers [api] of the upstream. *)
Inductive event : Type :=
  | Get (now : Z)
  | Refresh (api : Api) (now : Z).

(** One event: the process afterwards, and the resources a read is answered
    with.  In a process that has ended nothing happens and no read is
    answered. *)
Definition step (ev : event) (l : loop) : loop * option Resources :=
  match exited l with
  | Some _ => (l, None)
  | None =>
      match ev with
      | Get now =>
          let '(scheduled, resources) := getResources now (cache l) in
          (mkLoop (cache l) (if scheduled then S (timers l) else timers l) None,
           Some resources)
      | Refresh api now =>
          match timers l with
          | O => (l, None)
          | S n =>
              match refreshResources api now (cache l) with
              | (this, Rejected error) => (mkLoop this n (Some error), None)
              | (this, _) => (mkLoop this n None, None)
              end
          end
      end
  end.

(** A run of the loop: the final state and what each event returned. *)
Fixpoint run (events : list event) (l : loop) : loop * list (option Resources) :=
  match events with
  | [] => (l, [])
  | ev :: rest =>
      let '(l1, out) := step ev l in
      let '(l2, outs) := run rest l1 in
      (l2, out :: outs)
  end.

End ResourceCache.

(** ** A runtime to execute the model on

    Metric values are integers printed in decimal, keys are compared by
    character code, and a time is printed as its number of milliseconds. *)

Definition showZ (z : Z) : string := DecimalString.NilZero.string_of_int (Z.to_int z).

Fixpoint codeUnitCompare (a b : string) : Z :=
  match a, b with
  | EmptyString, EmptyString => 0
  | EmptyString, String _ _ => -1
  | String _ _, EmptyString => 1
  | String x a', String y b' =>
      if decide (x = y) then codeUnitCompare a' b'
      else (Z.of_N (N_of_ascii x) - Z.of_N (N_of_ascii y))%Z
  end.

(** The number a decimal numeral denotes, zero for any other string. *)
Definition readZ (s : string) : Z :=
  match DecimalString.NilZero.int_of_string s with
  | Some d => Z.of_int d
  | None => 0%Z
  end.

Definition integerRuntime : JsRuntime :=
  {| number := Z;
     Number_toString := showZ;
     Number_ofLength := Z.of_nat;
     parseInt := readZ;
     localeCompare := codeUnitCompare;
     toISOString := showZ |}.

(** ** A runtime that compares by collation

    [localeCompare] compares by collation, for which canonically equivalent
    strings are equal: the letter a followed by the combining acute accent
    U+0301 is equal to the precomposed letter U+00E1.  The two strings are
    written in UTF-8. *)

Definition a_acute : string :=
  String (ascii_of_nat 195) (String (ascii_of_nat 161) EmptyString).

Definition a_then_acute : string :=
  String "a" (String (ascii_of_nat 204) (String (ascii_of_nat 129) EmptyString)).

(** The canonical composition of the letter a with the accent. *)
Fixpoint compose (s : string) : string :=
  match s with
  | EmptyString => EmptyString
  | String c rest =>
      match compose rest with
      | String m1 (String m2 rest') =>
          if bool_decide (c = "a"%char /\ m1 = ascii_of_nat 204
                          /\ m2 = ascii_of_nat 129)
          then String (ascii_of_nat 195) (String (ascii_of_nat 161) rest')
          else String c (String m1 (String m2 rest'))
      | composed => String c composed
      end
  end.

Definition collationCompare (a b : string) : Z :=
  codeUnitCompare (compose a) (compose b).

Definition collationRuntime : JsRuntime :=
  {| number := Z;
     Number_toString := showZ;
     Number_ofLength := Z.of_nat;
     parseInt := readZ;
     localeCompare := collationCompare;
     toISOString := showZ |}.

(** ** Notions used to state the properties *)

(** The order a comparator puts its arguments in. *)
Definition compareLe {A : Type} (compare : A -> A -> Z) (a b : A) : Prop :=
  (compare a b <= 0)%Z.

(** A consistent comparator, as [Array.prototype.sort] expects it: swapping
    the arguments swaps the sign, and the order is transitive. *)
Definition consistent {A : Type} (compare : A -> A -> Z) : Prop :=
  (forall a b, Z.sgn (compare b a) = (- Z.sgn (compare a b))%Z)
  /\ (forall a b c, (compare a b <= 0)%Z -> (compare b c <= 0)%Z ->
                    (compare a c <= 0)%Z).

(** The comparator ties no two different entries of the object. *)
Definition distinctKeys `{JsRuntime} (o : JsObject) : Prop :=
  Forall (fun e1 => Forall (fun e2 => localeCompare e1.1 e2.1 = 0%Z -> e1 = e2) o) o.

(** A series that the merge skips: it has no labels or no data points. *)
Definition skipped `{JsRuntime} (metric : MetricResponse.t) : Prop :=
  MetricResponse.labels metric = None
  \/ MetricResponse.labels metric = Some []
  \/ MetricResponse.values metric = [].

(** The property an upstream label is copied as, if it is copied at all: its
    field is defined, not empty and not [__proto__], and its value is
    defined. *)
Definition copied (label : MetricLabel.t) : option (string * string) :=
  match MetricLabel.field label, MetricLabel.value label with
  | Some field, Some value =>
      if truthy field && negb (bool_decide (field = "__proto__"))
      then Some (field, value) else None
  | _, _ => None
  end.

(** The value that the upstream labels give to [key]: that of the last
    copied label with this field. *)
Definition upstreamValue (labels : list MetricLabel.t) (key : string) : option string :=
  last (omap (fun label =>
                match copied label with
                | Some (field, value) => if decide (field = key) then Some value else None
                | None => None
                end) labels).

(** The resource with identifier [key]: the last one, should the identifier
    occur more than once. *)
Definition lookupService (services : list Service.t) (key : string) : option Service.t :=
  last (filter (fun svc => Service.id svc = key) services).

Section Collection_notions.
Context `{JsRuntime}.

(** The start of the window that [collectMetrics] queries. *)
Definition windowStart (startTime : option string) (w : world) : string :=
  or_else startTime (toISOString (Date_now w - 2 * 60 * 1000)).

(** The outcomes of the batch queries. *)
Definition batchOutcomes (metricFn : MetricFn) (apiToken : string) (start : string)
    (idBatches : list (list string))
    : list (promise (list (option MetricResponse.t))) :=
  map (fun batch => settle (fn_call metricFn apiToken batch start)) idBatches.

(** The queries that the batches are sent as. *)
Definition batchCalls (metricFn : MetricFn) (apiToken : string) (start : string)
    (idBatches : list (list string)) : list UpstreamCall :=
  map (fun batch => mkCall (fn_name metricFn) apiToken batch start) idBatches.

End Collection_notions.

(** ** Inputs of the executable examples *)

Definition exampleServices : list Service.t :=
  [Service.mk "srv-1" "web"; Service.mk "red-1" "cache"].

(** A series of [srv-1] in percent, with two data points. *)
Definition exampleSeries : @MetricResponse.t integerRuntime :=
  @MetricResponse.mk integerRuntime
    (Some [MetricLabel.mk (Some "resource") (Some "srv-1");
           MetricLabel.mk (Some "instance") (Some "i-1")])
    "percent"
    [@DataPoint.mk integerRuntime "2025-01-01T00:00:00Z" 1%Z;
     @DataPoint.mk integerRuntime "2025-01-01T00:01:00Z" 7%Z].

(** A series without data points. *)
Definition emptySeries : @MetricResponse.t integerRuntime :=
  @MetricResponse.mk integerRuntime
    (Some [MetricLabel.mk (Some "resource") (Some "srv-1")]) "percent" [].

(** An upstream that answers every query with [exampleSeries]. *)
Definition exampleFn : @MetricFn integerRuntime :=
  @mkMetricFn integerRuntime "cpuUsage" (fun _ _ _ => Resolves [Some exampleSeries]).

(** An upstream that answers every query with a series that is skipped. *)
Definition emptyFn : @MetricFn integerRuntime :=
  @mkMetricFn integerRuntime "cpuUsage" (fun _ _ _ => Resolves [None; Some emptySeries]).

(** An upstream that rejects every query. *)
Definition failingFn : @MetricFn integerRuntime :=
  @mkMetricFn integerRuntime "cpuUsage" (fun _ _ _ => Rejects "503").

(** A world whose heap holds the base definition of the CPU metric. *)
Definition exampleWorld : world :=
  mkWorld
    [MetricDefinition.mk "render_service_cpu_usage" "CPU usage for a Render service"
       "gauge"]
    [] 1700000000000.

(** A series whose resource has an empty display name, with one label whose
    field is empty and one whose field is [__proto__]. *)
Definition oddSeries : @MetricResponse.t integerRuntime :=
  @MetricResponse.mk integerRuntime
    (Some [MetricLabel.mk (Some "resource") (Some "srv-1");
           MetricLabel.mk (Some EmptyString) (Some "x");
           MetricLabel.mk (Some "__proto__") (Some "y")])
    "percent"
    [@DataPoint.mk integerRuntime "2025-01-01T00:00:00Z" 1%Z].

(** ** Notions used to state the handler's properties *)

Section Handler_notions.
Context `{JsRuntime}.

(** The family collectors in the order the handler launches them, before
    their rejections are caught. *)
Definition familyCollectors (config : Config.t) (api : RenderApi)
    (services : list Service.t) : list (Async MetricResult.t) :=
  [ collectInstanceCountMetrics api services
      (Config.renderApiToken config) (Config.batchSize config);
    (fun w => let '(w1, r) := collectServiceCountMetric services w in
              (w1, Fulfilled r));
    collectCPUMetrics api services
      (Config.renderApiToken config) (Config.batchSize config);
    collectMemoryMetrics api services
      (Config.renderApiToken config) (Config.batchSize config);
    collectBandwidth api services
      (Config.renderApiToken config) (Config.batchSize config);
    collectActiveConnections api services
      (Config.renderApiToken config) (Config.batchSize config) ].

(** What the handler sees of a collector that has settled: its result, or
    [null] when it failed. *)
Definition caught {A : Type} (outcome : promise A) : option A :=
  match outcome with
  | Fulfilled a => Some a
  | _ => None
  end.

(** [catch] on the state of a promise. *)
Definition catchOutcome {A : Type} (outcome : promise A) : promise (option A) :=
  match outcome with
  | Fulfilled a => Fulfilled (Some a)
  | Rejected _ => Fulfilled None
  | Pending => Pending
  end.

(** The collector failed. *)
Definition failed {A : Type} (outcome : promise A) : Prop :=
  exists e, outcome = Rejected e.

(** The collector succeeded. *)
Definition succeeded {A : Type} (outcome : promise A) : bool :=
  match outcome with
  | Fulfilled _ => true
  | _ => false
  end.

(** The collector has come to an end. *)
Definition hasSettled {A : Type} (outcome : promise A) : Prop :=
  outcome <> Pending.

(** What one family contributes to the body: its formatted block when it
    succeeded and the block is not empty, nothing otherwise. *)
Definition familyBlock (w : world) (outcome : promise MetricResult.t) : list string :=
  match outcome with
  | Fulfilled result =>
      if decide (formatMetricResult w result = EmptyString) then []
      else [formatMetricResult w result]
  | _ => []
  end.

End Handler_notions.

(** An environment of the process, the configuration [loadConfig] builds
    from it, and an upstream whose CPU queries are rejected while its other
    queries are answered. *)
Definition exampleEnv : gmap string string :=
  {[ "NODE_ENV" := "production"; "RENDER_API_TOKEN" := "token" ]}.

Definition exampleConfig : @Config.t integerRuntime :=
  @Config.mk integerRuntime "production" "token" 3000%Z EmptyString 50
    (Config.mkAuth None None None).

Definition exampleApi : @RenderApi integerRuntime :=
  @mkRenderApi integerRuntime (fun _ _ => Resolves exampleServices)
    exampleFn failingFn exampleFn exampleFn emptyFn.

(** ** Notions used to state the cache's properties *)

(** The snapshot a reader gets from a cache. *)
Definition snapshot (this : ResourceCache.t) : ResourceCache.Resources :=
  ResourceCache.mkResources (ResourceCache.services this)
    (ResourceCache.redises this) (ResourceCache.postgreses this).

(** An upstream whose list of Redis instances cannot be fetched. *)
Definition redisDown : ResourceCache.Api :=
  ResourceCache.mkApi (fun _ _ => Resolves exampleServices)
    (fun _ _ => Rejects "503")
    (fun _ _ => Resolves []).

(** An upstream that answers all three fetches. *)
Definition allUp : ResourceCache.Api :=
  ResourceCache.mkApi (fun _ _ => Resolves exampleServices)
    (fun _ _ => Resolves [Redis.mk "red-1" "cache"])
    (fun _ _ => Resolves []).

(** A cache that was refreshed once, at time 1000. *)
Definition populatedCache : ResourceCache.t :=
  (ResourceCache.refreshResources allUp 1000
     (ResourceCache.new "token" EmptyString None)).1.

(** ** Authentication: [src/server.ts] *)

(** [s.substring(n)]: the string without its first [n] characters. *)
Fixpoint String_substring_from (n : nat) (s : string) : string :=
  match n, s with
  | O, _ => s
  | S n', String _ rest => String_substring_from n' rest
  | S _, EmptyString => EmptyString
  end.

(** What an [onRequest] hook does with a request: it lets the request
    through to the handler, or it answers [reply.code(401).send({ error })]. *)
Inductive hookOutcome : Type :=
  | Pass
  | Unauthorized (error : string).

(** A possibly undefined string is truthy. *)
Definition truthyOption (a : option string) : bool :=
  match a with
  | Some s => truthy s
  | None => false
  end.

Section Authentication.
Context `{JsRuntime}.

(** The hook [verifyBearerToken] that [setupBearerTokenAuth] decorates the
    server with; [authorization] is [request.headers.authorization]. *)
Definition verifyBearerToken (config : Config.t) (authorization : option string)
    : hookOutcome :=
  match authorization with
  | None => Unauthorized "Unauthorized: Bearer token required"
  | Some authHeader =>
      if negb (truthy authHeader) || negb (String.prefix "Bearer " authHeader)
      then Unauthorized "Unauthorized: Bearer token required"
      else
        let token := String_substring_from 7 authHeader in
        if decide (Some token = Config.bearer_token (Config.auth config))
        then Pass
        else Unauthorized "Unauthorized: Invalid token"
  end.

(** The [validate] function that [setupBasicAuth] registers: [None] when it
    returns, the error when it throws. *)
Definition validateBasicAuth (config : Config.t) (username password : string)
    : option exn :=
  if negb (bool_decide (Some username = Config.username (Config.auth config)))
     || negb (bool_decide (Some password = Config.password (Config.auth config)))
  then Some (Error "Invalid credentials")
  else None.

(** What [start] puts in front of the route [/metrics]. *)
Inductive metricsGuard : Type :=
  | BearerGuard
  | BasicGuard
  | NoGuard.

(** A value of the table [logger] of [start]: the transport object of
    development, or a boolean. *)
Inductive loggerOption : Type :=
  | PinoPretty
  | LoggerFlag (enabled : bool).

(** What [logger[name]] evaluates to: an own property of the table, a
    property that the table inherits from [Object.prototype], or
    [undefined]. *)
Inductive tableEntry : Type :=
  | Own (value : loggerOption)
  | Inherited (name : string)
  | Undefined.

(** The names of the properties of [Object.prototype]: functions, and for
    [__proto__] the prototype itself. *)
Definition Object_prototype_names : list string :=
  [ "constructor"; "__defineGetter__"; "__defineSetter__"; "hasOwnProperty";
    "__lookupGetter__"; "__lookupSetter__"; "isPrototypeOf";
    "propertyIsEnumerable"; "toString"; "valueOf"; "__proto__";
    "toLocaleString" ].

(** [logger[name]] for the table of [start]: development, production (true)
    and test (false). *)
Definition logger (name : string) : tableEntry :=
  if decide (name = "development") then Own PinoPretty
  else if decide (name = "production") then Own (LoggerFlag true)
  else if decide (name = "test") then Own (LoggerFlag false)
  else if decide (name ∈ Object_prototype_names) then Inherited name
  else Undefined.

(** The entry is truthy: an object or a function is, [undefined] is not. *)
Definition entryTruthy (entry : tableEntry) : bool :=
  match entry with
  | Own PinoPretty => true
  | Own (LoggerFlag enabled) => enabled
  | Inherited _ => true
  | Undefined => false
  end.

(** How [start] goes, up to the registration of [/metrics]: it throws, or it
    takes the branch that registers the route behind a guard. *)
Inductive startOutcome : Type :=
  | Throws (error : exn)
  | Registers (guard : metricsGuard).

(** [start()], reading [process.env], up to the branch that registers the
    route [/metrics].  [fastify] stands for the constructor of the server,
    which is the library's: the error it throws on a logger option, if it
    throws.  What the registration itself and [listen] do is the library's
    as well. *)
Definition start (fastify : tableEntry -> option exn) (env : gmap string string)
    : startOutcome :=
  match loadConfig env with
  | inl error => Throws error
  | inr config =>
      if negb (entryTruthy (logger (Config.env config))) then
        Throws (Error ("Invalid env: " +:+ Config.env config))
      else
        match fastify (logger (Config.env config)) with
        | Some error => Throws error
        | None =>
            if truthyOption (Config.bearer_token (Config.auth config))
            then Registers BearerGuard
            else if truthyOption (Config.username (Config.auth config))
                    && truthyOption (Config.password (Config.auth config))
                 then Registers BasicGuard
                 else Registers NoGuard
        end
  end.

End Authentication.

(** ** Notions used to state further properties *)

(** The merge keeps the series: it has a label and a data point. *)
Definition kept `{JsRuntime} (metric : MetricResponse.t) : bool :=
  match MetricResponse.labels metric, MetricResponse.values metric with
  | Some (_ :: _), _ :: _ => true
  | _, _ => false
  end.

(** The batches of identifiers that [chunkArray] makes for a positive batch
    size. *)
Definition batchesOf (ids : list string) (batchSize : nat) : list (list string) :=
  chunks_upto ids batchSize (ceil_div (length ids) batchSize).

(** The snapshot that a refresh against [api] installs when it succeeds. *)
Definition fetched (api : ResourceCache.Api) (token filter : string)
    : option ResourceCache.Resources :=
  match ResourceCache.getServices api token filter,
        ResourceCache.listRedis api token filter,
        ResourceCache.listPostgres api token filter with
  | Resolves newServices, Resolves newRedises, Resolves newPostgreses =>
      Some (ResourceCache.mkResources newServices newRedises newPostgreses)
  | _, _, _ => None
  end.

(** An environment with a bearer token for the metrics route. *)
Definition bearerEnv : gmap string string :=
  {[ "NODE_ENV" := "production"; "RENDER_API_TOKEN" := "token";
     "AUTH_BEARER_TOKEN" := "s3cret"; "AUTH_USERNAME" := "admin" ]}.

(** The same environment for a test run. *)
Definition testEnv : gmap string string := <["NODE_ENV" := "test"]> bearerEnv.

(** A server constructor that accepts every logger option. *)
Definition fastifyAccepts (entry : tableEntry) : option exn := None.

(** What an async function adds to the log of queries, as a function of the
    clock; it leaves the clock alone. *)
Definition logs {A : Type} (m : Async A) (added : Z -> list UpstreamCall) : Prop :=
  forall w, calls (m w).1 = calls w ++ added (Date_now w)
            /\ Date_now (m w).1 = Date_now w.

Section Scrape_notions.
Context `{JsRuntime}.

(** The upstream queries of one scrape of [services] at time [now], in the
    order they are issued: instance counts, CPU and memory for all services,
    bandwidth for the srv- services, connections for the red- and dpg-
    services. *)
Definition scrapeQueries (config : Config.t) (api : RenderApi)
    (services : list Service.t) (now : Z) : list UpstreamCall :=
  let token := Config.renderApiToken config in
  let size := Config.batchSize config in
  let twoMinutesAgo := toISOString (now - 2 * 60 * 1000) in
  let hourAgo := toISOString (now - 60 * 60 * 1000) in
  let all := batchesOf (map Service.id services) size in
  batchCalls (instanceCount api) token twoMinutesAgo all
  ++ batchCalls (cpuUsage api) token twoMinutesAgo all
  ++ batchCalls (memoryUsage api) token twoMinutesAgo all
  ++ batchCalls (bandwidth api) token (or_else (Some hourAgo) twoMinutesAgo)
       (batchesOf (map Service.id (List.filter (startsWith "srv-") services)) size)
  ++ batchCalls (activeConnections api) token twoMinutesAgo
       (batchesOf
          (map Service.id
             (List.filter (fun svc => startsWith "red-" svc || startsWith "dpg-" svc)
                services)) size).

End Scrape_notions.

(** [exampleSeries] with its two labels in the other order. *)
Definition exampleSeriesSwapped : @MetricResponse.t integerRuntime :=
  @MetricResponse.mk integerRuntime
    (Some [MetricLabel.mk (Some "instance") (Some "i-1");
           MetricLabel.mk (Some "resource") (Some "srv-1")])
    "percent"
    [@DataPoint.mk integerRuntime "2025-01-01T00:00:00Z" 1%Z;
     @DataPoint.mk integerRuntime "2025-01-01T00:01:00Z" 7%Z].

(** The block of the service count for [n] services. *)
Definition serviceCountBlock `{JsRuntime} (n : nat) : string :=
  "# HELP render_service_count Total number of services" +:+ LF
  +:+ "# TYPE render_service_count gauge" +:+ LF
  +:+ "render_service_count{} " +:+ Number_toString (Number_ofLength n) +:+ LF.

(** An upstream in outage: the list of resources is fetched, and every
    metric query is rejected. *)
Definition outageApi : @RenderApi integerRuntime :=
  @mkRenderApi integerRuntime (fun _ _ => Resolves exampleServices)
    failingFn failingFn failingFn failingFn failingFn.

(** An upstream without any resource. *)
Definition emptyApi : @RenderApi integerRuntime :=
  @mkRenderApi integerRuntime (fun _ _ => Resolves [])
    failingFn failingFn failingFn failingFn failingFn.

(** * Properties *)

(** ** Batching *)

Section chunkArray_facts.
Context {T : Type}.
Implicit Types (array : list T) (B k : nat).

Lemma ceil_div_gt n B k : 1 <= B -> k * B < n <-> k < ceil_div n B.
Proof.
  intros HB. unfold ceil_div. split; intros H.
  - apply Nat.div_le_lower_bound; nia.
  - destruct (Nat.lt_ge_cases (k * B) n) as [|Hge]; [done|].
    exfalso. assert ((n + B - 1) / B < S k); [|lia].
    apply Nat.Div0.div_lt_upper_bound; nia.
Qed.

Lemma ceil_div_zero B : ceil_div 0 B = 0.
Proof.
  unfold ceil_div. destruct B as [|B]; [done|].
  apply Nat.div_small. lia.
Qed.

Lemma chunks_upto_S array B k :
  chunks_upto array B (S k) =
  chunks_upto array B k ++ [slice array (k * B) (k * B + B)].
Proof. unfold chunks_upto. by rewrite seq_S, map_app. Qed.

Lemma chunkArray_loop_spec array B fuel k :
  1 <= B ->
  length array <= k * B + fuel ->
  k <= ceil_div (length array) B ->
  chunkArray_loop fuel array B (k * B) (chunks_upto array B k)
  = Some (chunks_upto array B (ceil_div (length array) B)).
Proof.
  intros HB. revert k. induction fuel as [|fuel IH]; intros k Hfuel Hk; simpl.
  - destruct (decide (k * B < length array)) as [Hlt|Hge]; [lia|].
    assert (~ k < ceil_div (length array) B) by (rewrite <- ceil_div_gt; done).
    do 2 f_equal. lia.
  - destruct (decide (k * B < length array)) as [Hlt|Hge].
    + rewrite <- chunks_upto_S.
      replace (k * B + B) with (S k * B) by lia.
      apply IH; [lia|]. apply ceil_div_gt in Hlt; [lia|done].
    + assert (~ k < ceil_div (length array) B) by (rewrite <- ceil_div_gt; done).
      do 2 f_equal. lia.
Qed.

Lemma length_slice array i j :
  length (slice array i j) = Nat.min (j - i) (length array - i).
Proof. unfold slice. by rewrite length_take, length_drop. Qed.

Lemma concat_chunks_upto array B k :
  concat (chunks_upto array B k) = take (k * B) array.
Proof.
  induction k as [|k IH]; [done|].
  rewrite chunks_upto_S, concat_app, IH. simpl. rewrite app_nil_r.
  unfold slice. replace (k * B + B - k * B) with B by lia.
  replace (B + k * B) with (k * B + B) by lia.
  by rewrite take_take_drop.
Qed.

Lemma chunks_upto_lookup array B k j chunk :
  chunks_upto array B k !! j = Some chunk ->
  j < k /\ chunk = slice array (j * B) (j * B + B).
Proof.
  unfold chunks_upto. rewrite list_lookup_fmap.
  destruct (seq 0 k !! j) as [x|] eqn:Hx; [|done].
  apply lookup_seq in Hx as [-> ?]. simpl. intros [= <-]. done.
Qed.

(** With a positive chunk size the loop ends within its fuel. *)
Lemma chunkArray_positive array B :
  1 <= B ->
  chunkArray array B = Some (chunks_upto array B (ceil_div (length array) B)).
Proof.
  intros HB. unfold chunkArray.
  pose proof (chunkArray_loop_spec array B (length array) 0 HB) as Hloop.
  simpl in Hloop. apply Hloop; lia.
Qed.

End chunkArray_facts.

(** C2.  For every array of N >= 0 identifiers and every chunk size B >= 1,
    [chunkArray] returns ceil(N/B) chunks (none when N = 0); chunk k is the
    slice of the array from k*B to k*B+B, so the chunks are ordered,
    contiguous and do not overlap; every chunk but the last has length B, the
    last one has between 1 and B elements, and the concatenation of the
    chunks is the array. *)
Theorem chunkArray_partition {T : Type} (array : list T) (B : nat) :
  1 <= B ->
  exists chunks,
    chunkArray array B = Some chunks
    /\ length chunks = ceil_div (length array) B
    /\ (array = [] -> chunks = [])
    /\ concat chunks = array
    /\ (forall k chunk, chunks !! k = Some chunk ->
          chunk = slice array (k * B) (k * B + B))
    /\ (forall k chunk, chunks !! k = Some chunk ->
          S k < length chunks -> length chunk = B)
    /\ (forall k chunk, chunks !! k = Some chunk -> 1 <= length chunk <= B).
Proof.
  intros HB. exists (chunks_upto array B (ceil_div (length array) B)).
  assert (Hlen : length (chunks_upto array B (ceil_div (length array) B))
                 = ceil_div (length array) B).
  { unfold chunks_upto. by rewrite length_map, length_seq. }
  split; [|split; [done|split; [|split; [|split; [|split]]]]].
  - by apply chunkArray_positive.
  - intros ->. simpl. by rewrite ceil_div_zero.
  - rewrite concat_chunks_upto. apply take_ge.
    destruct (Nat.lt_ge_cases (ceil_div (length array) B * B) (length array))
      as [Hlt|]; [|done].
    apply ceil_div_gt in Hlt; [lia|done].
  - intros k chunk Hk. by apply chunks_upto_lookup in Hk as [_ ->].
  - intros k chunk Hk HS. rewrite Hlen in HS.
    apply chunks_upto_lookup in Hk as [_ ->].
    apply ceil_div_gt in HS; [|done].
    rewrite length_slice. lia.
  - intros k chunk Hk. apply chunks_upto_lookup in Hk as [Hlt ->].
    apply ceil_div_gt in Hlt; [|done].
    rewrite length_slice. lia.
Qed.

Lemma chunkArray_partition_witness :
  1 <= 2 /\
  exists chunks,
    chunkArray [10; 20; 30; 40; 50] 2 = Some chunks
    /\ length chunks = ceil_div (length [10; 20; 30; 40; 50]) 2
    /\ ([10; 20; 30; 40; 50] = [] -> chunks = [])
    /\ concat chunks = [10; 20; 30; 40; 50]
    /\ (forall k chunk, chunks !! k = Some chunk ->
          chunk = slice [10; 20; 30; 40; 50] (k * 2) (k * 2 + 2))
    /\ (forall k chunk, chunks !! k = Some chunk ->
          S k < length chunks -> length chunk = 2)
    /\ (forall k chunk, chunks !! k = Some chunk -> 1 <= length chunk <= 2).
Proof.
  split; [lia|]. apply (chunkArray_partition [10; 20; 30; 40; 50] 2). lia.
Defined.

(** The batches of the end-to-end scenario of the specification: 120
    identifiers in batches of 50. *)
Example chunkArray_120_by_50 :
  map length <$> chunkArray (seq 0 120) 50 = Some [50; 50; 20].
Proof. vm_compute. reflexivity. Qed.

(** A chunk size of zero never leaves the loop on a non-empty array,
    whatever the fuel. *)
Lemma chunkArray_loop_zero {T : Type} (array : list T) fuel chunks :
  array <> [] -> chunkArray_loop fuel array 0 0 chunks = None.
Proof.
  intros Hne. revert chunks. induction fuel as [|fuel IH]; intros chunks; simpl.
  - destruct (decide (0 < length array)) as [|Hn]; [done|].
    destruct array; [done|simpl in Hn; lia].
  - destruct (decide (0 < length array)) as [|Hn]; [apply IH|].
    destruct array; [done|simpl in Hn; lia].
Qed.

Lemma chunkArray_zero {T : Type} (array : list T) :
  array <> [] -> chunkArray array 0 = None.
Proof. apply chunkArray_loop_zero. Qed.

(** ** Sorting *)

Section Sorting_facts.
Context {A : Type} (compare : A -> A -> Z).

Lemma sort_insert_Permutation x (l : list A) :
  sort_insert compare x l ≡ₚ x :: l.
Proof.
  induction l as [|y l IH]; simpl; [done|].
  destruct (0 <? compare x y)%Z; [|done].
  rewrite IH. apply Permutation_swap.
Qed.

Lemma Array_sort_Permutation (l : list A) : Array_sort compare l ≡ₚ l.
Proof.
  induction l as [|x l IH]; simpl; [done|].
  by rewrite sort_insert_Permutation, IH.
Qed.

Hypothesis compare_consistent : consistent compare.

Lemma compare_gt_le a b : (0 < compare a b)%Z -> compareLe compare b a.
Proof.
  destruct compare_consistent as [Hsgn _]. unfold compareLe.
  intros Hgt. specialize (Hsgn a b). lia.
Qed.

Lemma compareLe_both a b :
  compareLe compare a b -> compareLe compare b a -> compare a b = 0%Z.
Proof.
  destruct compare_consistent as [Hsgn _]. unfold compareLe.
  intros Hab Hba. specialize (Hsgn a b). lia.
Qed.

Lemma sort_insert_sorted x (l : list A) :
  StronglySorted (compareLe compare) l ->
  StronglySorted (compareLe compare) (sort_insert compare x l).
Proof.
  destruct compare_consistent as [_ Htrans].
  induction l as [|y l IH]; simpl; intros Hl.
  - repeat constructor.
  - apply StronglySorted_inv in Hl as [Hl Hy].
    destruct (0 <? compare x y)%Z eqn:Hcmp.
    + apply Z.ltb_lt in Hcmp. constructor; [by apply IH|].
      rewrite sort_insert_Permutation. constructor; [|done].
      by apply compare_gt_le.
    + apply Z.ltb_ge in Hcmp. constructor; [by constructor|].
      constructor; [done|].
      eapply Forall_impl; [exact Hy|]. intros z Hz. by eapply Htrans.
Qed.

Lemma Array_sort_sorted (l : list A) :
  StronglySorted (compareLe compare) (Array_sort compare l).
Proof.
  induction l as [|x l IH]; simpl; [constructor|by apply sort_insert_sorted].
Qed.

(** A sort does not depend on the order of its input when the comparator
    ties no two different elements. *)
Lemma Array_sort_order_independent (l1 l2 : list A) :
  l1 ≡ₚ l2 ->
  (forall x1 x2, x1 ∈ l1 -> x2 ∈ l1 -> compare x1 x2 = 0%Z -> x1 = x2) ->
  Array_sort compare l1 = Array_sort compare l2.
Proof.
  intros Hperm Hties.
  apply (StronglySorted_unique_strong (compareLe compare)).
  - intros x1 x2 Hx1 Hx2 H12 H21. apply Hties.
    + by rewrite Array_sort_Permutation in Hx1.
    + rewrite Array_sort_Permutation in Hx2. by rewrite Hperm.
    + by apply compareLe_both.
  - apply Array_sort_sorted.
  - apply Array_sort_sorted.
  - by rewrite !Array_sort_Permutation.
Qed.

End Sorting_facts.

(** ** Formatting *)

Lemma N_of_ascii_inj x y : N_of_ascii x = N_of_ascii y -> x = y.
Proof.
  intros Heq. rewrite <- (ascii_N_embedding x), <- (ascii_N_embedding y).
  by rewrite Heq.
Qed.

(** The comparison by character code is a consistent comparator that ties
    equal strings only. *)
Ltac ascii_codes_differ :=
  repeat match goal with
         | Hne : ?u <> ?v |- _ =>
             assert (N_of_ascii u <> N_of_ascii v)
               by (intros ?%N_of_ascii_inj; done);
             clear Hne
         end.

Lemma codeUnitCompare_sgn a b :
  Z.sgn (codeUnitCompare b a) = (- Z.sgn (codeUnitCompare a b))%Z.
Proof.
  revert b. induction a as [|x a IH]; intros [|y b]; simpl; try done.
  repeat case_decide; subst; try done.
  ascii_codes_differ. lia.
Qed.

Lemma codeUnitCompare_trans a b c :
  (codeUnitCompare a b <= 0)%Z -> (codeUnitCompare b c <= 0)%Z ->
  (codeUnitCompare a c <= 0)%Z.
Proof.
  revert b c. induction a as [|x a IH]; intros [|y b] [|z c]; simpl; try lia.
  repeat case_decide; subst; try done; try apply IH;
    ascii_codes_differ; lia.
Qed.

Lemma codeUnitCompare_consistent : consistent codeUnitCompare.
Proof. split; [apply codeUnitCompare_sgn|apply codeUnitCompare_trans]. Qed.

Lemma codeUnitCompare_eq a b : codeUnitCompare a b = 0%Z -> a = b.
Proof.
  revert b. induction a as [|x a IH]; intros [|y b]; simpl; try done.
  case_decide; subst.
  - intros ?%IH. by subst.
  - assert (N_of_ascii x <> N_of_ascii y) by (intros ?%N_of_ascii_inj; done).
    lia.
Qed.

Lemma Object_entries_Permutation (o : JsObject) : Object_entries o ≡ₚ o.
Proof.
  unfold Object_entries. rewrite Array_sort_Permutation.
  induction o as [|e o IH]; [done|].
  destruct (is_array_index e) eqn:He.
  - rewrite filter_cons_True, filter_cons_False by (by rewrite ?He).
    simpl. by rewrite IH.
  - rewrite filter_cons_False, filter_cons_True by (by rewrite ?He).
    rewrite <- Permutation_middle. by rewrite IH.
Qed.

Section Formatting_facts.
Context `{JsRuntime}.

Lemma compareKeys_consistent : consistent localeCompare -> consistent compareKeys.
Proof. intros [Hsgn Htrans]. split; intros; unfold compareKeys; eauto. Qed.

Lemma sortedLabels_Permutation (o : JsObject) : sortedLabels o ≡ₚ o.
Proof.
  unfold sortedLabels. by rewrite Array_sort_Permutation, Object_entries_Permutation.
Qed.

Lemma sortedLabels_order_independent (o1 o2 : JsObject) :
  consistent localeCompare -> o1 ≡ₚ o2 -> distinctKeys o1 ->
  sortedLabels o1 = sortedLabels o2.
Proof.
  intros Hc Hperm Hdistinct. unfold sortedLabels.
  apply Array_sort_order_independent.
  - by apply compareKeys_consistent.
  - by rewrite !Object_entries_Permutation.
  - intros e1 e2 He1 He2. rewrite Object_entries_Permutation in He1, He2.
    unfold distinctKeys in Hdistinct. rewrite Forall_forall in Hdistinct.
    specialize (Hdistinct e1 He1). rewrite Forall_forall in Hdistinct.
    by apply Hdistinct.
Qed.

(** Keys that are unique are distinct for a comparator that ties equal
    strings only. *)
Lemma distinctKeys_NoDup (o : JsObject) :
  (forall a b, localeCompare a b = 0%Z -> a = b) ->
  NoDup o.*1 -> distinctKeys o.
Proof.
  intros Hties Hnodup. unfold distinctKeys.
  apply Forall_forall. intros e1 He1. apply Forall_forall. intros e2 He2 Hcmp.
  apply Hties in Hcmp.
  apply list_elem_of_lookup in He1 as [i Hi]. apply list_elem_of_lookup in He2 as [j Hj].
  assert (i = j) as ->; [|congruence].
  eapply NoDup_lookup; [exact Hnodup| |]; rewrite list_lookup_fmap.
  - by rewrite Hi.
  - rewrite Hj. simpl. by rewrite Hcmp.
Qed.

End Formatting_facts.

(** C3.  Each line that [formatMetricValues] emits is the metric name, the
    labels between braces, each rendered as key, equals sign and quoted value,
    sorted by key in the order of [localeCompare], and the number; the sorted
    labels are a permutation of the label object.  Hence two label objects
    with the same key/value pairs, built in different insertion orders,
    render to the same label text: the output does not depend on the
    iteration order of the object.  [localeCompare] is taken as a consistent
    comparator that ties no two different keys of the object. *)
Theorem formatMetricValues_labels_sorted `{JsRuntime}
    (metricName : string) (values : list MetricValue.t) :
  consistent localeCompare ->
  formatMetricValues metricName values
    = Array_join LF (map (formatMetricLine metricName) values) +:+ LF
  /\ (forall value,
        formatMetricLine metricName value
        = metricName +:+ "{"
          +:+ Array_join ", " (map formatLabel (sortedLabels (MetricValue.labels value)))
          +:+ "} " +:+ Number_toString (MetricValue.value value)
        /\ sortedLabels (MetricValue.labels value) ≡ₚ MetricValue.labels value
        /\ StronglySorted (compareLe compareKeys)
             (sortedLabels (MetricValue.labels value)))
  /\ (forall key val, formatLabel (key, val) = key +:+ "=" +:+ DQUOTE +:+ val +:+ DQUOTE)
  /\ (forall o1 o2 : JsObject,
        o1 ≡ₚ o2 -> distinctKeys o1 -> formatLabels o1 = formatLabels o2).
Proof.
  intros Hc. split; [done|]. split; [|split; [done|]].
  - intros value. split; [done|]. split.
    + apply sortedLabels_Permutation.
    + apply Array_sort_sorted. by apply compareKeys_consistent.
  - intros o1 o2 Hperm Hdistinct. unfold formatLabels.
    by rewrite (sortedLabels_order_independent o1 o2).
Qed.

Lemma formatMetricValues_labels_sorted_witness :
  consistent (@localeCompare integerRuntime)
  /\ @formatLabels integerRuntime [("b", "2"); ("a", "1")]
     = @formatLabels integerRuntime [("a", "1"); ("b", "2")].
Proof.
  split; [exact codeUnitCompare_consistent|].
  apply (@formatMetricValues_labels_sorted integerRuntime "m" []
           codeUnitCompare_consistent).
  - apply Permutation_swap.
  - repeat constructor; vm_compute; congruence.
Defined.

(** Without the condition on ties the label text depends on the insertion
    order: under collation the precomposed and the decomposed letter compare
    equal, the sort keeps them in insertion order, and two objects with the
    same two pairs render differently.  The first of them is not in the
    order of the character codes either. *)
Lemma formatMetricValues_labels_sorted_counterexample :
  consistent (@localeCompare collationRuntime)
  /\ a_acute <> a_then_acute
  /\ [(a_acute, "1"); (a_then_acute, "2")] ≡ₚ [(a_then_acute, "2"); (a_acute, "1")]
  /\ @formatLabels collationRuntime [(a_acute, "1"); (a_then_acute, "2")]
     <> @formatLabels collationRuntime [(a_then_acute, "2"); (a_acute, "1")]
  /\ @formatMetricValues collationRuntime "m"
       [@MetricValue.mk collationRuntime [(a_acute, "1"); (a_then_acute, "2")] 5%Z]
     <> @formatMetricValues collationRuntime "m"
          [@MetricValue.mk collationRuntime [(a_then_acute, "2"); (a_acute, "1")] 5%Z]
  /\ (codeUnitCompare a_then_acute a_acute < 0)%Z
  /\ @sortedLabels collationRuntime [(a_acute, "1"); (a_then_acute, "2")]
     = [(a_acute, "1"); (a_then_acute, "2")].
Proof.
  split.
  { split.
    - intros a b. apply codeUnitCompare_sgn.
    - intros a b c. apply codeUnitCompare_trans. }
  split; [discriminate|]. split; [apply Permutation_swap|].
  split; [vm_compute; discriminate|]. split; [vm_compute; discriminate|].
  split; [reflexivity|]. vm_compute. reflexivity.
Qed.

(** The example of the specification, executed: both insertion orders give
    the same line. *)
Example formatMetricValues_insertion_order :
  @formatMetricValues integerRuntime "m"
    [@MetricValue.mk integerRuntime [("b", "2"); ("a", "1")] 5%Z]
  = @formatMetricValues integerRuntime "m"
    [@MetricValue.mk integerRuntime [("a", "1"); ("b", "2")] 5%Z].
Proof. vm_compute. reflexivity. Qed.

(** ** Objects *)

Lemma Object_get_put (o : JsObject) key val key' :
  Object_get (Object_put o key val) key'
  = if decide (key = key') then Some val else Object_get o key'.
Proof.
  induction o as [|[k v] o IH]; simpl.
  - repeat case_decide; done.
  - repeat (case_decide; simpl; subst); try done; try congruence.
Qed.

Lemma Object_get_set (o : JsObject) key val key' :
  Object_get (Object_set o key val) key'
  = if decide (key = key' /\ key <> "__proto__") then Some val
    else Object_get o key'.
Proof.
  unfold Object_set. destruct (decide (key = "__proto__")) as [->|Hne].
  - rewrite decide_False; [done|]. intros [_ ?]; done.
  - rewrite Object_get_put. repeat case_decide; naive_solver.
Qed.

(** Writing a property keeps the keys unique. *)
Lemma Object_put_keys (o : JsObject) key val :
  NoDup o.*1 -> NoDup (Object_put o key val).*1.
Proof.
  induction o as [|[k v] o IH]; simpl; intros Hnd.
  - repeat constructor. set_solver.
  - apply NoDup_cons in Hnd as [Hk Hnd]. case_decide; subst; simpl.
    + by constructor.
    + constructor; [|by apply IH].
      intros Hin. apply Hk. clear -Hin H.
      induction o as [|[k' v'] o IHo]; simpl in *; [set_solver|].
      case_decide; subst; simpl in *; set_solver.
Qed.

(** ** Collection *)

Section Collection_facts.
Context `{JsRuntime}.

Lemma copyLabel_get (o : JsObject) (label : MetricLabel.t) key :
  Object_get (copyLabel o label) key
  = match copied label with
    | Some (field, value) => if decide (field = key) then Some value else Object_get o key
    | None => Object_get o key
    end.
Proof.
  unfold copyLabel, copied.
  destruct (MetricLabel.field label) as [f|]; [|done].
  destruct (MetricLabel.value label) as [v|]; [|done].
  destruct (truthy f); simpl; [|done].
  rewrite Object_get_set. unfold Object_set.
  destruct (bool_decide_reflect (f = "__proto__")); simpl.
  - rewrite decide_False; [done|]. naive_solver.
  - repeat case_decide; naive_solver.
Qed.

Lemma foldl_copyLabel_get (labels : list MetricLabel.t) (o : JsObject) key :
  Object_get (foldl copyLabel o labels) key
  = match upstreamValue labels key with
    | Some value => Some value
    | None => Object_get o key
    end.
Proof.
  revert o. induction labels as [|label labels IH] using rev_ind; intros o; [done|].
  rewrite foldl_app. simpl. rewrite copyLabel_get, IH.
  unfold upstreamValue. rewrite omap_app. simpl.
  destruct (copied label) as [[f v]|]; simpl.
  - case_decide; simpl.
    + by rewrite last_snoc.
    + by rewrite app_nil_r.
  - by rewrite app_nil_r.
Qed.

(** The label object of a point has unique keys. *)
Lemma copyLabel_keys (o : JsObject) (label : MetricLabel.t) :
  NoDup o.*1 -> NoDup (copyLabel o label).*1.
Proof.
  intros Hnodup. unfold copyLabel, Object_set.
  destruct (MetricLabel.field label) as [f|]; [|done].
  destruct (MetricLabel.value label) as [v|]; [|done].
  destruct (truthy f); [|done]. case_decide; [done|].
  by apply Object_put_keys.
Qed.

Lemma foldl_copyLabel_keys (labels : list MetricLabel.t) (o : JsObject) :
  NoDup o.*1 -> NoDup (foldl copyLabel o labels).*1.
Proof.
  revert o. induction labels as [|label labels IH]; intros o Hnodup; [done|].
  simpl. by apply IH, copyLabel_keys.
Qed.

Lemma toMetricValue_keys serviceMap (metric : MetricResponse.t) point :
  toMetricValue serviceMap metric = Some point ->
  NoDup (MetricValue.labels point).*1.
Proof.
  unfold toMetricValue.
  destruct (MetricResponse.labels metric) as [[|label more]|]; [done| |done].
  destruct (last (MetricResponse.values metric)); [|done].
  intros [= <-]. apply (foldl_copyLabel_keys (label :: more)).
  apply NoDup_cons. split; [set_solver|]. apply NoDup_singleton.
Qed.

Lemma buildServiceMap_lookup (services : list Service.t) key :
  buildServiceMap services !! key = lookupService services key.
Proof.
  unfold buildServiceMap, lookupService.
  induction services as [|svc services IH] using rev_ind; [done|].
  rewrite foldl_app, filter_app. simpl.
  rewrite filter_cons, filter_nil. case_decide; subst.
  - by rewrite lookup_insert_eq, last_snoc.
  - rewrite lookup_insert_ne by done. by rewrite app_nil_r.
Qed.

Lemma toMetricValue_None serviceMap (metric : MetricResponse.t) :
  toMetricValue serviceMap metric = None <-> skipped metric.
Proof.
  unfold toMetricValue, skipped.
  destruct (MetricResponse.labels metric) as [[|label more]|]; [naive_solver| |naive_solver].
  destruct (MetricResponse.values metric) as [|p ps] eqn:Hv using rev_ind.
  - simpl. naive_solver.
  - rewrite last_snoc. split; [done|].
    intros [|[|Hnil]]; [done..|]. by destruct ps.
Qed.

Lemma mergeResults_nil serviceMap allMetricsResults :
  Forall skipped (nonNull (concat allMetricsResults)) ->
  mergeResults serviceMap allMetricsResults = [].
Proof.
  unfold mergeResults, nonNull. generalize (omap id (concat allMetricsResults)).
  intros metrics. induction 1 as [|metric metrics Hskip _ IH]; [done|].
  simpl. apply (toMetricValue_None serviceMap) in Hskip. by rewrite Hskip.
Qed.

Lemma alter_fresh {A : Type} (f : A -> A) (h : list A) (d : A) :
  alter f (length h) (h ++ [d]) = h ++ [f d].
Proof. rewrite alter_app_r_alt by done. by rewrite Nat.sub_diag. Qed.

Lemma deref_fresh h d c t : deref (mkWorld (h ++ [d]) c t) (length h) = d.
Proof. unfold deref. simpl. by rewrite list_lookup_middle. Qed.

End Collection_facts.

Section collectMetrics_facts.
Context `{JsRuntime}.
Implicit Types (services : list Service.t) (w : world) (metricFn : MetricFn).

Lemma toMetricValue_Some serviceMap (metric : MetricResponse.t) point :
  toMetricValue serviceMap metric = Some point ->
  exists upstream latest,
    MetricResponse.labels metric = Some upstream
    /\ upstream <> []
    /\ last (MetricResponse.values metric) = Some latest
    /\ point = MetricValue.mk _
                 (foldl copyLabel
                    [("unit", MetricResponse.unit metric);
                     ("service_name", resolveServiceName serviceMap upstream)]
                    upstream)
                 (DataPoint.value latest).
Proof.
  unfold toMetricValue.
  destruct (MetricResponse.labels metric) as [[|label more]|]; [done| |done].
  destruct (last (MetricResponse.values metric)) as [latest|]; [|done].
  intros [= <-]. by exists (label :: more), latest.
Qed.

Lemma toMetricValue_unit serviceMap (metric : MetricResponse.t) point :
  toMetricValue serviceMap metric = Some point ->
  is_Some (Object_get (MetricValue.labels point) "unit").
Proof.
  intros (upstream & latest & _ & _ & _ & ->)%toMetricValue_Some. simpl.
  rewrite foldl_copyLabel_get. by destruct (upstreamValue upstream "unit").
Qed.

Lemma Promise_all_settle {A : Type} (outcomes : list (settled A)) :
  Promise_all (map settle outcomes) <> Pending.
Proof.
  induction outcomes as [|[a|reason] outcomes IH]; simpl; [done| |done].
  by destruct (Promise_all (map settle outcomes)).
Qed.

Lemma batchOutcomes_settle metricFn apiToken start idBatches :
  Promise_all (batchOutcomes metricFn apiToken start idBatches) <> Pending.
Proof.
  unfold batchOutcomes.
  rewrite <- (map_map (fun batch => fn_call metricFn apiToken batch start) settle).
  apply Promise_all_settle.
Qed.

(** [collectMetrics] case by case, with the heap written out. *)
Lemma collectMetrics_unfold services apiToken batchSize metricFn
    (metricDefinition : loc) startTime w :
  collectMetrics services apiToken batchSize metricFn metricDefinition startTime w
  = match chunkArray (map Service.id services) batchSize with
    | None => (w, Pending)
    | Some idBatches =>
        let start := windowStart startTime w in
        let w1 := log_calls (batchCalls metricFn apiToken start idBatches) w in
        match Promise_all (batchOutcomes metricFn apiToken start idBatches) with
        | Pending => (w1, Pending)
        | Rejected e => (w1, Rejected e)
        | Fulfilled allMetricsResults =>
            match mergeResults (buildServiceMap services) allMetricsResults with
            | [] => (w1, Rejected (Error (emptyResultMessage metricFn services)))
            | first :: rest =>
                (mkWorld
                   (heap w ++
                    [MetricDefinition.mk
                       (MetricDefinition.name (deref w metricDefinition) +:+ "_"
                        +:+ template (Object_get (MetricValue.labels first) "unit"))
                       (MetricDefinition.help (deref w metricDefinition))
                       (MetricDefinition.type (deref w metricDefinition))])
                   (calls w ++ batchCalls metricFn apiToken start idBatches)
                   (Date_now w),
                 Fulfilled (MetricResult.mk _ (length (heap w)) (first :: rest)))
            end
        end
    end.
Proof.
  unfold collectMetrics, windowStart, batchOutcomes, batchCalls.
  destruct (chunkArray _ _) as [idBatches|]; [|done]. simpl.
  destruct (Promise_all _) as [allMetricsResults| |]; [|done..].
  destruct (mergeResults _ _) as [|first rest]; [done|].
  unfold alloc, set_name, log_calls. simpl.
  rewrite deref_fresh, alter_fresh. done.
Qed.

End collectMetrics_facts.

Lemma prefix_append (s t : string) : String.prefix s (s +:+ t) = true.
Proof.
  induction s as [|c s IH]; simpl.
  - by destruct t.
  - by destruct (ascii_dec c c).
Qed.

Section collectMetrics_properties.
Context `{JsRuntime}.
Implicit Types (services : list Service.t) (w : world) (metricFn : MetricFn).

Lemma mergeResults_unit services allMetricsResults first rest :
  mergeResults (buildServiceMap services) allMetricsResults = first :: rest ->
  is_Some (Object_get (MetricValue.labels first) "unit").
Proof.
  intros Hmerge.
  assert (first ∈ mergeResults (buildServiceMap services) allMetricsResults) as Hin
    by (rewrite Hmerge; left).
  unfold mergeResults in Hin. apply list_elem_of_omap in Hin as (metric & _ & Hm).
  by eapply toMetricValue_unit.
Qed.

Lemma collectMetrics_Fulfilled services apiToken batchSize metricFn
    (metricDefinition : loc) startTime w w' result :
  collectMetrics services apiToken batchSize metricFn metricDefinition startTime w
  = (w', Fulfilled result) ->
  exists idBatches allMetricsResults first rest unit,
    chunkArray (map Service.id services) batchSize = Some idBatches
    /\ Promise_all (batchOutcomes metricFn apiToken (windowStart startTime w) idBatches)
       = Fulfilled allMetricsResults
    /\ mergeResults (buildServiceMap services) allMetricsResults = first :: rest
    /\ Object_get (MetricValue.labels first) "unit" = Some unit
    /\ result = MetricResult.mk _ (length (heap w)) (first :: rest)
    /\ w' = mkWorld
              (heap w ++
               [MetricDefinition.mk
                  (MetricDefinition.name (deref w metricDefinition) +:+ "_" +:+ unit)
                  (MetricDefinition.help (deref w metricDefinition))
                  (MetricDefinition.type (deref w metricDefinition))])
              (calls w ++ batchCalls metricFn apiToken (windowStart startTime w) idBatches)
              (Date_now w).
Proof.
  rewrite collectMetrics_unfold.
  destruct (chunkArray _ _) as [idBatches|]; [|done]. simpl.
  destruct (Promise_all _) as [allMetricsResults| |] eqn:Hall; [|done..].
  destruct (mergeResults _ _) as [|first rest] eqn:Hmerge; [done|].
  destruct (mergeResults_unit _ _ _ _ Hmerge) as [unit Hunit].
  rewrite Hunit. simpl. intros [= <- <-].
  by exists idBatches, allMetricsResults, first, rest, unit.
Qed.

Lemma collectMetrics_heap_prefix services apiToken batchSize metricFn
    (metricDefinition : loc) startTime w :
  heap w `prefix_of`
    heap (collectMetrics services apiToken batchSize metricFn metricDefinition
            startTime w).1.
Proof.
  rewrite collectMetrics_unfold.
  destruct (chunkArray _ _) as [idBatches|]; [|done]. simpl.
  destruct (Promise_all _) as [allMetricsResults| |]; [|done..].
  destruct (mergeResults _ _) as [|first rest]; [done|].
  simpl. by apply prefix_app_r.
Qed.

Lemma Promise_all_settle_Rejected {A : Type} (outcomes : list (settled A)) e :
  Promise_all (map settle outcomes) = Rejected e ->
  exists reason, e = UpstreamFailure reason /\ Rejects reason ∈ outcomes.
Proof.
  induction outcomes as [|[a|reason] outcomes IH]; simpl; [done| |].
  - destruct (Promise_all (map settle outcomes)) eqn:Hall; [done| |done].
    intros [= <-]. destruct IH as (reason' & -> & Hin); [done|].
    exists reason'. split; [done|by right].
  - intros [= <-]. exists reason. split; [done|by left].
Qed.

End collectMetrics_properties.

(** C4.  Whenever [collectMetrics] succeeds, its values are not empty, the
    first value has a [unit] label, and the name of the returned definition is
    the name of the base definition, an underscore, and that unit; so the base
    name render_service_cpu_usage with the first unit percent gives exactly
    render_service_cpu_usage_percent. *)
Theorem collectMetrics_name_suffix `{JsRuntime} (services : list Service.t)
    (apiToken : string) (batchSize : nat) (metricFn : MetricFn)
    (metricDefinition : loc) (startTime : option string) (w w' : world)
    (result : MetricResult.t) :
  collectMetrics services apiToken batchSize metricFn metricDefinition startTime w
  = (w', Fulfilled result) ->
  exists first rest unit,
    MetricResult.values result = first :: rest
    /\ Object_get (MetricValue.labels first) "unit" = Some unit
    /\ MetricDefinition.name (deref w' (MetricResult.definition result))
       = MetricDefinition.name (deref w metricDefinition) +:+ "_" +:+ unit
    /\ (MetricDefinition.name (deref w metricDefinition) = "render_service_cpu_usage" ->
        unit = "percent" ->
        MetricDefinition.name (deref w' (MetricResult.definition result))
        = "render_service_cpu_usage_percent").
Proof.
  intros (idBatches & allMetricsResults & first & rest & unit & _ & _ & _
          & Hunit & -> & ->)%collectMetrics_Fulfilled.
  exists first, rest, unit. simpl. rewrite deref_fresh. simpl.
  split; [done|]. split; [done|]. split; [done|].
  by intros -> ->.
Qed.

Lemma collectMetrics_name_suffix_witness :
  (@collectMetrics integerRuntime exampleServices "token" 50 exampleFn 0 None
     exampleWorld).2
  = Fulfilled
      (@MetricResult.mk integerRuntime 1
         [@MetricValue.mk integerRuntime
            [("unit", "percent"); ("service_name", "web");
             ("resource", "srv-1"); ("instance", "i-1")] 7%Z])
  /\ MetricDefinition.name
       (deref (@collectMetrics integerRuntime exampleServices "token" 50 exampleFn
                 0 None exampleWorld).1 1)
     = "render_service_cpu_usage_percent".
Proof.
  split; [vm_compute; reflexivity|].
  destruct (@collectMetrics_name_suffix integerRuntime exampleServices "token" 50
              exampleFn 0 None exampleWorld
              (@collectMetrics integerRuntime exampleServices "token" 50 exampleFn
                 0 None exampleWorld).1
              (@MetricResult.mk integerRuntime 1
                 [@MetricValue.mk integerRuntime
                    [("unit", "percent"); ("service_name", "web");
                     ("resource", "srv-1"); ("instance", "i-1")] 7%Z]))
    as (first & rest & unit & Hvalues & Hunit & _ & Hname).
  - vm_compute. reflexivity.
  - simpl in Hvalues. injection Hvalues as <- <-. simpl in Hunit.
    injection Hunit as <-. apply Hname; reflexivity.
Defined.

(** C5.  When the batch queries all resolve and every series they return is
    skipped (no labels or no data points), [collectMetrics] is rejected with
    the error whose message starts with the words Empty metrics result, and
    changes no object.  The two kinds of failure never mix: every rejection
    of [collectMetrics] is either this error, raised when all queries
    resolved and no point survived, or the reason of a rejected upstream
    query, passed on unchanged; and a fulfilled call never carries an empty
    values array. *)
Theorem collectMetrics_empty_result `{JsRuntime} (services : list Service.t)
    (apiToken : string) (batchSize : nat) (metricFn : MetricFn)
    (metricDefinition : loc) (startTime : option string) (w : world)
    (idBatches : list (list string))
    (allMetricsResults : list (list (option MetricResponse.t))) :
  chunkArray (map Service.id services) batchSize = Some idBatches ->
  Promise_all (batchOutcomes metricFn apiToken (windowStart startTime w) idBatches)
  = Fulfilled allMetricsResults ->
  Forall skipped (nonNull (concat allMetricsResults)) ->
  (exists w',
     collectMetrics services apiToken batchSize metricFn metricDefinition startTime w
     = (w', Rejected (Error (emptyResultMessage metricFn services)))
     /\ heap w' = heap w)
  /\ String.prefix "Empty metrics result " (emptyResultMessage metricFn services) = true
  /\ (forall services2 apiToken2 batchSize2 (metricFn2 : MetricFn) definition2
             startTime2 w2 w2' e,
        collectMetrics services2 apiToken2 batchSize2 metricFn2 definition2
          startTime2 w2 = (w2', Rejected e) ->
        (e = Error (emptyResultMessage metricFn2 services2)
         /\ exists batches results,
              chunkArray (map Service.id services2) batchSize2 = Some batches
              /\ Promise_all (batchOutcomes metricFn2 apiToken2
                                (windowStart startTime2 w2) batches)
                 = Fulfilled results
              /\ mergeResults (buildServiceMap services2) results = [])
        \/ (exists reason batch batches,
              e = UpstreamFailure reason
              /\ chunkArray (map Service.id services2) batchSize2 = Some batches
              /\ batch ∈ batches
              /\ fn_call metricFn2 apiToken2 batch (windowStart startTime2 w2)
                 = Rejects reason))
  /\ (forall services2 apiToken2 batchSize2 (metricFn2 : MetricFn) definition2
             startTime2 w2 w2' result,
        collectMetrics services2 apiToken2 batchSize2 metricFn2 definition2
          startTime2 w2 = (w2', Fulfilled result) ->
        MetricResult.values result <> []).
Proof.
  intros Hchunk Hall Hskipped. split; [|split; [apply prefix_append|split]].
  - eexists. rewrite collectMetrics_unfold, Hchunk. simpl. rewrite Hall.
    rewrite mergeResults_nil by done. done.
  - clear. intros services2 apiToken2 batchSize2 metricFn2 definition2 startTime2 w2 w2' e.
    rewrite collectMetrics_unfold.
    destruct (chunkArray _ _) as [batches|]; [|done]. simpl.
    destruct (Promise_all _) as [results|e'|] eqn:Hall2; [| |done].
    + destruct (mergeResults _ _) as [|first rest] eqn:Hmerge; [|done].
      intros [= <- <-]. left. split; [done|]. by exists batches, results.
    + intros [= <- <-]. right. unfold batchOutcomes in Hall2.
      rewrite <- (map_map (fun batch => fn_call metricFn2 apiToken2 batch
                                          (windowStart startTime2 w2)) settle) in Hall2.
      apply Promise_all_settle_Rejected in Hall2 as (reason & -> & Hin).
      apply list_elem_of_fmap in Hin as (batch & Hcall & Hin).
      by exists reason, batch, batches.
  - clear. intros services2 apiToken2 batchSize2 metricFn2 definition2 startTime2 w2 w2' result
      (? & ? & first & rest & ? & _ & _ & _ & _ & -> & _)%collectMetrics_Fulfilled.
    done.
Qed.

Lemma collectMetrics_empty_result_witness :
  (@collectMetrics integerRuntime exampleServices "token" 50 emptyFn 0 None
     exampleWorld).2
  = Rejected (Error "Empty metrics result cpuUsage «srv-1 web»,«red-1 cache»")
  /\ heap (@collectMetrics integerRuntime exampleServices "token" 50 emptyFn 0 None
             exampleWorld).1
     = heap exampleWorld.
Proof.
  destruct (@collectMetrics_empty_result integerRuntime exampleServices "token" 50
              emptyFn 0 None exampleWorld [["srv-1"; "red-1"]]
              [[None; Some emptySeries]])
    as [(w' & Hrun & Hheap) _].
  - vm_compute. reflexivity.
  - vm_compute. reflexivity.
  - apply Forall_cons. split; [right; right; reflexivity|apply Forall_nil_2].
  - rewrite Hrun. simpl. split; [vm_compute; reflexivity|exact Hheap].
Defined.

(** C10.  [collectMetrics] never writes to the object its [metricDefinition]
    argument refers to: after every call, whatever its outcome, that object
    has the name, help and type it had before, and so has every other object
    that existed before the call; the definition of a fulfilled result is a
    new object, so a base name is never suffixed twice. *)
Theorem collectMetrics_preserves_definition `{JsRuntime} (services : list Service.t)
    (apiToken : string) (batchSize : nat) (metricFn : MetricFn)
    (metricDefinition : loc) (startTime : option string) (w : world)
    (base : MetricDefinition.t) :
  heap w !! metricDefinition = Some base ->
  heap (collectMetrics services apiToken batchSize metricFn metricDefinition
          startTime w).1 !! metricDefinition = Some base
  /\ deref (collectMetrics services apiToken batchSize metricFn metricDefinition
              startTime w).1 metricDefinition = base
  /\ (forall l d, heap w !! l = Some d ->
        heap (collectMetrics services apiToken batchSize metricFn metricDefinition
                startTime w).1 !! l = Some d)
  /\ (forall result,
        (collectMetrics services apiToken batchSize metricFn metricDefinition
           startTime w).2 = Fulfilled result ->
        MetricResult.definition result <> metricDefinition
        /\ heap w !! MetricResult.definition result = None).
Proof.
  intros Hbase.
  pose proof (collectMetrics_heap_prefix services apiToken batchSize metricFn
                metricDefinition startTime w) as Hprefix.
  assert (Hframe : forall l d, heap w !! l = Some d ->
            heap (collectMetrics services apiToken batchSize metricFn
                    metricDefinition startTime w).1 !! l = Some d).
  { intros l d Hl. by eapply prefix_lookup_Some. }
  split; [by apply Hframe|]. split; [|split; [done|]].
  - unfold deref. by rewrite (Hframe _ _ Hbase).
  - intros result Hresult.
    destruct (collectMetrics services apiToken batchSize metricFn metricDefinition
                startTime w) as [w' outcome] eqn:Hrun.
    simpl in Hresult. subst outcome.
    apply collectMetrics_Fulfilled in Hrun
      as (? & ? & first & rest & unit & _ & _ & _ & _ & -> & _).
    simpl. split.
    + intros <-. rewrite lookup_ge_None_2 in Hbase; done.
    + by apply lookup_ge_None_2.
Qed.

Lemma collectMetrics_preserves_definition_witness :
  heap exampleWorld !! 0
  = Some (MetricDefinition.mk "render_service_cpu_usage"
            "CPU usage for a Render service" "gauge")
  /\ heap (@collectMetrics integerRuntime exampleServices "token" 50 exampleFn 0
             None exampleWorld).1 !! 0
     = Some (MetricDefinition.mk "render_service_cpu_usage"
               "CPU usage for a Render service" "gauge").
Proof.
  split; [reflexivity|].
  apply (@collectMetrics_preserves_definition integerRuntime exampleServices
           "token" 50 exampleFn 0 None exampleWorld).
  reflexivity.
Defined.

(** Scraping twice from the same base definition gives the same name
    twice: the suffix is never doubled. *)
Example collectMetrics_twice :
  let first := @collectMetrics integerRuntime exampleServices "token" 50 exampleFn
                 0 None exampleWorld in
  let second := @collectMetrics integerRuntime exampleServices "token" 50 exampleFn
                  0 None first.1 in
  MetricDefinition.name <$> heap second.1
  = ["render_service_cpu_usage"; "render_service_cpu_usage_percent";
     "render_service_cpu_usage_percent"].
Proof. vm_compute. reflexivity. Qed.

(** ** The specialised collectors *)

(** C8.  When no identifier of the resource list starts with srv-,
    [collectBandwidth] is fulfilled with an empty values array, for every
    upstream and every batch size, and the log of upstream queries is what it
    was: no query is issued and no error raised.  The same holds for
    [collectActiveConnections] when no identifier starts with red- or
    dpg-. *)
Theorem collectors_filter_to_empty `{JsRuntime} (api : RenderApi)
    (services : list Service.t) (apiToken : string) (batchSize : nat) (w : world) :
  (Forall (fun svc => startsWith "srv-" svc = false) services ->
   exists w' result,
     collectBandwidth api services apiToken batchSize w = (w', Fulfilled result)
     /\ MetricResult.values result = []
     /\ calls w' = calls w
     /\ formatMetricResult w' result = EmptyString)
  /\ (Forall (fun svc => startsWith "red-" svc = false
                         /\ startsWith "dpg-" svc = false) services ->
      exists w' result,
        collectActiveConnections api services apiToken batchSize w
        = (w', Fulfilled result)
        /\ MetricResult.values result = []
        /\ calls w' = calls w
        /\ formatMetricResult w' result = EmptyString).
Proof.
  split; intros Hnone.
  - unfold collectBandwidth. simpl.
    assert (List.filter (startsWith "srv-") services = []) as ->.
    { induction Hnone as [|svc services Hsvc _ IH]; [done|].
      simpl. by rewrite Hsvc. }
    simpl. by eexists _, _.
  - unfold collectActiveConnections. simpl.
    assert (List.filter (fun svc => startsWith "red-" svc || startsWith "dpg-" svc)
              services = []) as ->.
    { induction Hnone as [|svc services [Hred Hdpg] _ IH]; [done|].
      simpl. by rewrite Hred, Hdpg. }
    simpl. by eexists _, _.
Qed.

Lemma collectors_filter_to_empty_witness :
  (exists w' result,
     @collectBandwidth integerRuntime
       (@mkRenderApi integerRuntime (fun _ _ => Resolves [])
          failingFn failingFn failingFn failingFn failingFn)
       [Service.mk "red-1" "cache"; Service.mk "dpg-1" "db"] "token" 50 exampleWorld
     = (w', Fulfilled result)
     /\ MetricResult.values result = []
     /\ calls w' = calls exampleWorld
     /\ @formatMetricResult integerRuntime w' result = EmptyString)
  /\ (exists w' result,
        @collectActiveConnections integerRuntime
          (@mkRenderApi integerRuntime (fun _ _ => Resolves [])
             failingFn failingFn failingFn failingFn failingFn)
          [Service.mk "srv-1" "web"] "token" 50 exampleWorld
        = (w', Fulfilled result)
        /\ MetricResult.values result = []
        /\ calls w' = calls exampleWorld
        /\ @formatMetricResult integerRuntime w' result = EmptyString).
Proof.
  split.
  - apply (@collectors_filter_to_empty integerRuntime
             (@mkRenderApi integerRuntime (fun _ _ => Resolves [])
                failingFn failingFn failingFn failingFn failingFn)
             [Service.mk "red-1" "cache"; Service.mk "dpg-1" "db"] "token" 50
             exampleWorld).
    repeat (apply Forall_cons; split; [reflexivity|]). apply Forall_nil_2.
  - apply (@collectors_filter_to_empty integerRuntime
             (@mkRenderApi integerRuntime (fun _ _ => Resolves [])
                failingFn failingFn failingFn failingFn failingFn)
             [Service.mk "srv-1" "web"] "token" 50 exampleWorld).
    repeat (apply Forall_cons; split; [split; reflexivity|]). apply Forall_nil_2.
Defined.

(** ** Labels of a merged point *)

Lemma upstreamValue_last (before after : list MetricLabel.t) label field value :
  copied label = Some (field, value) ->
  (forall later value', later ∈ after -> copied later <> Some (field, value')) ->
  upstreamValue (before ++ label :: after) field = Some value.
Proof.
  intros Hcopied Hafter. unfold upstreamValue.
  set (pick := fun label0 => match copied label0 with
                             | Some (field0, value0) =>
                                 if decide (field0 = field) then Some value0 else None
                             | None => None
                             end).
  assert (omap pick after = []) as Hnil.
  { induction after as [|later after IH]; [done|].
    change (omap pick (later :: after))
      with (match pick later with
            | Some y => y :: omap pick after
            | None => omap pick after
            end).
    rewrite IH by (intros ????; eapply Hafter; [by right|done]).
    unfold pick. destruct (copied later) as [[f v]|] eqn:Hlater; [|done].
    case_decide; [|done]. subst. exfalso.
    eapply (Hafter later v); [by left|done]. }
  assert (pick label = Some value) as Hpick.
  { unfold pick. by rewrite Hcopied, decide_True. }
  replace (before ++ label :: after) with ((before ++ [label]) ++ after)
    by (by rewrite <- app_assoc).
  rewrite !omap_app, Hnil, app_nil_r. simpl. rewrite Hpick.
  by rewrite last_snoc.
Qed.

(** C6, as the code has it.  For every series that survives the
    merge, the label object of the point holds: under [service_name], the
    non-empty display name of the resource whose identifier is the value of
    the series' first [resource] label, or the word unknown when no resource
    has that identifier or its display name is empty; under [unit], the unit
    of the series; and every upstream label whose field is not empty and not
    [__proto__] and whose value is defined, under its field.  An upstream
    label wins over the precomputed [unit] and [service_name], and of two
    upstream labels with the same field the later wins.  Whether a resource
    matches has no influence on the point being produced. *)
Theorem toMetricValue_labels `{JsRuntime} (services : list Service.t)
    (metric : MetricResponse.t) (point : MetricValue.t) :
  toMetricValue (buildServiceMap services) metric = Some point ->
  exists upstream latest,
    MetricResponse.labels metric = Some upstream
    /\ last (MetricResponse.values metric) = Some latest
    /\ MetricValue.value point = DataPoint.value latest
    /\ Object_get (MetricValue.labels point) "service_name"
       = Some match upstreamValue upstream "service_name" with
              | Some value => value
              | None =>
                  match lookupService services (resourceKey upstream) with
                  | Some svc =>
                      if truthy (Service.name svc) then Service.name svc
                      else "unknown"
                  | None => "unknown"
                  end
              end
    /\ Object_get (MetricValue.labels point) "unit"
       = Some match upstreamValue upstream "unit" with
              | Some value => value
              | None => MetricResponse.unit metric
              end
    /\ (forall before label after field value,
          upstream = before ++ label :: after ->
          copied label = Some (field, value) ->
          (forall later value', later ∈ after -> copied later <> Some (field, value')) ->
          Object_get (MetricValue.labels point) field = Some value)
    /\ (forall key, key <> "unit" -> key <> "service_name" ->
          Object_get (MetricValue.labels point) key = upstreamValue upstream key)
    /\ (forall services', is_Some (toMetricValue (buildServiceMap services') metric)).
Proof.
  intros Hpoint.
  destruct (toMetricValue_Some _ _ _ Hpoint)
    as (upstream & latest & Hlabels & Hne & Hlast & ->).
  exists upstream, latest. simpl.
  split; [done|]. split; [done|]. split; [done|].
  split; [|split; [|split; [|split]]].
  - rewrite foldl_copyLabel_get.
    destruct (upstreamValue upstream "service_name"); [done|]. simpl.
    unfold resolveServiceName. rewrite buildServiceMap_lookup.
    by destruct (lookupService services (resourceKey upstream)).
  - rewrite foldl_copyLabel_get.
    by destruct (upstreamValue upstream "unit").
  - intros before label after field value -> Hcopied Hafter.
    rewrite foldl_copyLabel_get.
    by rewrite (upstreamValue_last before after label field value).
  - intros key Hunit Hname. rewrite foldl_copyLabel_get.
    destruct (upstreamValue upstream key); [done|]. simpl.
    by rewrite !decide_False by done.
  - intros services'. unfold toMetricValue. rewrite Hlabels, Hlast.
    by destruct upstream.
Qed.

Lemma toMetricValue_labels_witness :
  @toMetricValue integerRuntime (buildServiceMap exampleServices) exampleSeries
  = Some (@MetricValue.mk integerRuntime
            [("unit", "percent"); ("service_name", "web");
             ("resource", "srv-1"); ("instance", "i-1")] 7%Z)
  /\ Object_get [("unit", "percent"); ("service_name", "web");
                 ("resource", "srv-1"); ("instance", "i-1")] "service_name"
     = Some "web".
Proof.
  split; [vm_compute; reflexivity|].
  destruct (@toMetricValue_labels integerRuntime exampleServices exampleSeries
              (@MetricValue.mk integerRuntime
                 [("unit", "percent"); ("service_name", "web");
                  ("resource", "srv-1"); ("instance", "i-1")] 7%Z))
    as (upstream & latest & Hupstream & _ & _ & Hname & _).
  - vm_compute. reflexivity.
  - reflexivity.
Defined.

(** C6, as the specification states it, fails.  The resource [srv-1] matches the series and
    has the empty display name, yet [service_name] is the word unknown; the
    upstream label with the empty field has a defined field and value and
    is not copied; nor is the label with the field [__proto__]. *)
Lemma toMetricValue_labels_counterexample :
  exists point,
    @toMetricValue integerRuntime (buildServiceMap [Service.mk "srv-1" EmptyString])
      oddSeries = Some point
    /\ lookupService [Service.mk "srv-1" EmptyString] "srv-1"
       = Some (Service.mk "srv-1" EmptyString)
    /\ Object_get (MetricValue.labels point) "service_name" = Some "unknown"
    /\ Some "unknown" <> Some (Service.name (Service.mk "srv-1" EmptyString))
    /\ MetricResponse.labels oddSeries
       = Some [MetricLabel.mk (Some "resource") (Some "srv-1");
               MetricLabel.mk (Some EmptyString) (Some "x");
               MetricLabel.mk (Some "__proto__") (Some "y")]
    /\ Object_get (MetricValue.labels point) EmptyString = None
    /\ Object_get (MetricValue.labels point) "__proto__" = None
    /\ MetricValue.labels point
       = [("unit", "percent"); ("service_name", "unknown"); ("resource", "srv-1")].
Proof.
  eexists. split; [vm_compute; reflexivity|].
  repeat split; try (vm_compute; reflexivity). simpl. congruence.
Qed.

(** ** The handler *)

Lemma append_assoc (a b c : string) : (a +:+ b) +:+ c = a +:+ (b +:+ c).
Proof.
  induction a as [|x a IH]; [done|].
  change (String x ((a +:+ b) +:+ c) = String x (a +:+ (b +:+ c))).
  by rewrite IH.
Qed.

Lemma length_zero_empty (s : string) :
  (0 <? String.length s)%nat = false <-> s = EmptyString.
Proof. destruct s; simpl; split; done. Qed.

Section Handler_facts.
Context `{JsRuntime}.

Lemma formatMetricResult_nil w (result : MetricResult.t) :
  MetricResult.values result = [] -> formatMetricResult w result = EmptyString.
Proof. unfold formatMetricResult. by intros ->. Qed.

(** A block that is not empty ends with a line feed. *)
Lemma formatMetricResult_ends_LF w (result : MetricResult.t) :
  formatMetricResult w result <> EmptyString ->
  exists text, formatMetricResult w result = text +:+ LF.
Proof.
  unfold formatMetricResult, formatMetricValues. case_decide; [done|]. intros _.
  exists (formatMetricHeader (deref w (MetricResult.definition result))
          +:+ Array_join LF
                (map (formatMetricLine
                        (MetricDefinition.name
                           (deref w (MetricResult.definition result))))
                   (MetricResult.values result))).
  by rewrite append_assoc.
Qed.

(** A result with values formats to a block that is not empty. *)
Lemma formatMetricResult_not_empty w (result : MetricResult.t) :
  MetricResult.values result <> [] -> formatMetricResult w result <> EmptyString.
Proof.
  unfold formatMetricResult, formatMetricHeader. intros Hne.
  case_decide as Hlen; [by destruct (MetricResult.values result)|]. done.
Qed.

Lemma metricsOutput_blocks w (outcomes : list (promise MetricResult.t)) :
  metricsOutput w (map caught outcomes)
  = Array_join LF (concat (map (familyBlock w) outcomes)).
Proof.
  unfold metricsOutput, nonNull. f_equal.
  induction outcomes as [|[result| |] outcomes IH]; simpl; [done| |done..].
  change (list_omap _ _ id (map caught outcomes))
    with (omap id (map caught outcomes)).
  rewrite IH. case_decide as Hempty.
  - by rewrite (proj2 (length_zero_empty _) Hempty).
  - destruct (0 <? String.length (formatMetricResult w result))%nat eqn:Hlen; [done|].
    by apply length_zero_empty in Hlen.
Qed.

Lemma nonNull_caught {A : Type} (outcomes : list (promise A)) :
  Forall hasSettled outcomes ->
  length (nonNull (map caught outcomes)) = 0 <-> Forall failed outcomes.
Proof.
  unfold nonNull. induction 1 as [|[a|e|] outcomes Hsettled _ IH]; simpl.
  - done.
  - split; [done|]. intros [[e ?] _]%Forall_cons. done.
  - rewrite IH. split.
    + intros ?. apply Forall_cons. split; [by exists e|done].
    + by intros [_ ?]%Forall_cons.
  - done.
Qed.

Lemma catch_null_outcome {A : Type} (m : Async A) w :
  catch_null m w = ((m w).1, catchOutcome (m w).2).
Proof. unfold catch_null. by destruct (m w) as [w' [a|e|]]. Qed.

Lemma launch_caught {A : Type} (ms : list (Async A)) (ms' : list (Async (option A))) w :
  Forall2 (fun m m' => forall w, m' w = ((m w).1, catchOutcome (m w).2)) ms ms' ->
  launch ms' w = ((launch ms w).1, map catchOutcome (launch ms w).2).
Proof.
  intros Hms. revert w. induction Hms as [|m m' ms ms' Hm _ IH]; intros w; [done|].
  simpl. rewrite Hm. destruct (m w) as [w1 p]. simpl.
  rewrite IH. by destruct (launch ms w1).
Qed.

Lemma Promise_all_caught {A : Type} (outcomes : list (promise A)) :
  Forall hasSettled outcomes ->
  Promise_all (map catchOutcome outcomes) = Fulfilled (map caught outcomes).
Proof.
  induction 1 as [|[a|e|] outcomes Hsettled _ IH]; simpl; [done| | |done].
  - by rewrite IH.
  - by rewrite IH.
Qed.

End Handler_facts.

(** C7.  A result whose values array is empty formats to the empty string:
    no HELP line, no TYPE line, no value line.  In the body that the handler
    builds such a family leaves no trace: the body is the one built without
    it. *)
Theorem formatMetricResult_empty_family `{JsRuntime} (w : world)
    (result : MetricResult.t) (before after : list (option MetricResult.t)) :
  MetricResult.values result = [] ->
  formatMetricResult w result = EmptyString
  /\ metricsOutput w (before ++ Some result :: after) = metricsOutput w (before ++ after)
  /\ respond w (before ++ Some result :: after)
     = Reply.mk 200 [("Content-Type", "text/plain")] (metricsOutput w (before ++ after)).
Proof.
  intros Hvalues.
  pose proof (formatMetricResult_nil w result Hvalues) as Hempty.
  assert (Hout : metricsOutput w (before ++ Some result :: after)
                 = metricsOutput w (before ++ after)).
  { unfold metricsOutput, nonNull. f_equal.
    rewrite !omap_app, !map_app, !List.filter_app. f_equal.
    change (omap id (Some result :: after)) with (result :: omap id after).
    simpl. by rewrite Hempty. }
  split; [done|]. split; [done|].
  unfold respond. rewrite Hout. case_decide as Hlen; [|done].
  unfold nonNull in Hlen. rewrite omap_app, length_app in Hlen.
  simpl in Hlen. lia.
Qed.

Lemma formatMetricResult_empty_family_witness :
  @formatMetricResult integerRuntime exampleWorld (@MetricResult.mk integerRuntime 0 [])
  = EmptyString
  /\ @metricsOutput integerRuntime exampleWorld
       [None; Some (@MetricResult.mk integerRuntime 0 [])]
     = @metricsOutput integerRuntime exampleWorld [None].
Proof.
  destruct (@formatMetricResult_empty_family integerRuntime exampleWorld
              (@MetricResult.mk integerRuntime 0 []) [None] [] eq_refl)
    as (Hempty & Hout & _).
  split; [exact Hempty|exact Hout].
Defined.

Section Handler_settles.
Context `{JsRuntime}.
Implicit Types (services : list Service.t) (w : world).

Lemma collectMetrics_settles services apiToken batchSize (metricFn : MetricFn)
    (metricDefinition : loc) startTime w :
  1 <= batchSize ->
  hasSettled (collectMetrics services apiToken batchSize metricFn metricDefinition
                startTime w).2.
Proof.
  intros HB. rewrite collectMetrics_unfold, chunkArray_positive by done. simpl.
  pose proof (batchOutcomes_settle metricFn apiToken (windowStart startTime w)
                (chunks_upto (map Service.id services) batchSize
                   (ceil_div (length (map Service.id services)) batchSize)))
    as Hsettle.
  destruct (Promise_all _) as [results|e|]; [|done..].
  by destruct (mergeResults _ _).
Qed.

Lemma familyCollectors_settle (config : Config.t) (api : RenderApi) services :
  1 <= Config.batchSize config ->
  Forall (fun m : Async MetricResult.t => forall w, hasSettled (m w).2)
    (familyCollectors config api services).
Proof.
  intros HB. unfold familyCollectors.
  repeat (apply Forall_cons; split); try apply Forall_nil_2; intros w.
  - by apply collectMetrics_settles.
  - done.
  - by apply collectMetrics_settles.
  - by apply collectMetrics_settles.
  - unfold collectBandwidth. simpl. case_decide; [done|].
    by apply collectMetrics_settles.
  - unfold collectActiveConnections. simpl. case_decide; [done|].
    by apply collectMetrics_settles.
Qed.

Lemma launch_settled {A : Type} (ms : list (Async A)) w :
  Forall (fun m : Async A => forall w, hasSettled (m w).2) ms ->
  Forall hasSettled (launch ms w).2.
Proof.
  intros Hms. revert w. induction Hms as [|m ms Hm _ IH]; intros w; simpl.
  - apply Forall_nil_2.
  - specialize (Hm w). destruct (m w) as [w1 p]. specialize (IH w1).
    destruct (launch ms w1) as [w2 ps]. simpl in *.
    apply Forall_cons. by split.
Qed.

Lemma launchedCollectors_caught (config : Config.t) (api : RenderApi) services w :
  launch (launchedCollectors config api services) w
  = ((launch (familyCollectors config api services) w).1,
     map catchOutcome (launch (familyCollectors config api services) w).2).
Proof.
  apply launch_caught. unfold launchedCollectors, familyCollectors.
  repeat (apply Forall2_cons; split); try apply Forall2_nil_2;
    intros w0; try apply catch_null_outcome.
  by destruct (collectServiceCountMetric services w0).
Qed.

Lemma launch_second {A : Type} (m1 m2 : Async A) (ms : list (Async A)) w :
  exists w1, (launch (m1 :: m2 :: ms) w).2 !! 1 = Some (m2 w1).2.
Proof.
  simpl. destruct (m1 w) as [w1 p1]. exists w1.
  destruct (m2 w1) as [w2 p2]. by destruct (launch ms w2).
Qed.

(** The count of services is launched second and never fails. *)
Lemma familyCollectors_not_all_failed (config : Config.t) (api : RenderApi)
    services w :
  ~ Forall failed (launch (familyCollectors config api services) w).2.
Proof.
  unfold familyCollectors. intros Hall.
  edestruct (launch_second (A:=MetricResult.t)) as [w1 Hsecond].
  eapply Forall_lookup_1 in Hall as [e Hcount]; [|exact Hsecond].
  simpl in Hcount. by destruct (collectServiceCountMetric services w1).
Qed.

Lemma respond_spec w (outcomes : list (promise MetricResult.t)) :
  Forall hasSettled outcomes ->
  (Reply.statusCode (respond w (map caught outcomes)) = 500 <-> Forall failed outcomes)
  /\ (Forall failed outcomes ->
      respond w (map caught outcomes)
      = Reply.mk 500 [] "Error fetching metrics: all collectors failed")
  /\ (~ Forall failed outcomes ->
      respond w (map caught outcomes)
      = Reply.mk 200 [("Content-Type", "text/plain")]
          (Array_join LF (concat (map (familyBlock w) outcomes)))
      /\ Forall (fun block => block <> EmptyString /\ exists text, block = text +:+ LF)
           (concat (map (familyBlock w) outcomes))
      /\ (forall outcome, outcome ∈ outcomes -> failed outcome ->
            familyBlock w outcome = [])).
Proof.
  intros Hsettled. pose proof (nonNull_caught outcomes Hsettled) as Hnull.
  unfold respond. case_decide as Hlen.
  - apply Hnull in Hlen. simpl. by repeat split.
  - rewrite Hnull in Hlen. simpl. split; [split; [done|by intros ?]|].
    split; [done|]. intros _. rewrite metricsOutput_blocks. split; [done|]. split.
    + apply Forall_concat, Forall_fmap, Forall_forall. intros outcome _.
      destruct outcome as [result| |]; simpl; try apply Forall_nil_2.
      case_decide as Hempty; [apply Forall_nil_2|].
      apply Forall_cons. split; [|apply Forall_nil_2].
      split; [done|]. by apply formatMetricResult_ends_LF.
    + by intros outcome _ [e ->].
Qed.

End Handler_settles.

(** The configuration of the running server has the batch size 50. *)
Lemma loadConfig_batchSize `{JsRuntime} env (config : Config.t) :
  loadConfig env = inr config -> Config.batchSize config = 50.
Proof.
  unfold loadConfig.
  destruct (requiredEnvVar env "NODE_ENV") as [|nodeEnv]; [done|].
  destruct (requiredEnvVar env "RENDER_API_TOKEN") as [|token]; [done|].
  by intros [= <-].
Qed.

Example loadConfig_example : @loadConfig integerRuntime exampleEnv = inr exampleConfig.
Proof. vm_compute. reflexivity. Qed.

(** A scrape in which the CPU queries are rejected and the connection
    queries return nothing usable: the two families fail, the handler answers
    200, and the body is made of the blocks of the four other families. *)
Example metrics_partial_failure :
  let run := launch (@familyCollectors integerRuntime exampleConfig exampleApi
                       exampleServices) exampleWorld in
  map succeeded run.2 = [true; true; false; true; true; false]
  /\ (@metrics integerRuntime exampleConfig exampleApi exampleWorld).2
     = Fulfilled
         (Reply.mk 200 [("Content-Type", "text/plain")]
            (Array_join LF
               (omap (fun outcome =>
                        @formatMetricResult integerRuntime run.1 <$> caught outcome)
                  run.2))).
Proof. vm_compute. split; reflexivity. Qed.

(** ** The resource cache *)

Lemma refreshResources_Rejected api now this e :
  (ResourceCache.refreshResources api now this).2 = Rejected e ->
  (ResourceCache.refreshResources api now this).1 = this.
Proof.
  unfold ResourceCache.refreshResources.
  destruct (Promise_all3 _ _ _) as [[[newServices newRedises] newPostgreses]|e'|];
    done.
Qed.

(** In a process that has ended nothing happens any more. *)
Lemma run_exited this timers e events :
  ResourceCache.run events (ResourceCache.mkLoop this timers (Some e))
  = (ResourceCache.mkLoop this timers (Some e), map (fun _ => None) events).
Proof. induction events as [|ev events IH]; simpl; [done|]. by rewrite IH. Qed.

(** C9.  A refresh of the cache that fails leaves the cache as it was: the
    services, redises and postgreses lists and the time of the last refresh
    keep their values, and [getResources] on that object would return the
    snapshot from before.  But the refresh throws its error again, and nobody
    awaits a refresh that [getResources] scheduled: when such a refresh
    fails, the process ends with that error, and no later read is
    answered. *)
Theorem ResourceCache_refresh_failure (api : ResourceCache.Api) (now : Z)
    (this : ResourceCache.t) (e : exn) (timers : nat)
    (events : list ResourceCache.event) :
  (ResourceCache.refreshResources api now this).2 = Rejected e ->
  (ResourceCache.refreshResources api now this).1 = this
  /\ (forall now',
        (ResourceCache.getResources now'
           (ResourceCache.refreshResources api now this).1).2
        = snapshot this)
  /\ ResourceCache.run (ResourceCache.Refresh api now :: events)
       (ResourceCache.mkLoop this (S timers) None)
     = (ResourceCache.mkLoop this timers (Some e), None :: map (fun _ => None) events).
Proof.
  intros Hrejected.
  pose proof (refreshResources_Rejected _ _ _ _ Hrejected) as Hsame.
  rewrite Hsame. split; [done|]. split; [done|].
  cbn [ResourceCache.run ResourceCache.step ResourceCache.exited
         ResourceCache.timers ResourceCache.cache].
  destruct (ResourceCache.refreshResources api now this) as [this' outcome].
  simpl in Hrejected, Hsame. subst. by rewrite run_exited.
Qed.

Lemma ResourceCache_refresh_failure_witness :
  (ResourceCache.refreshResources redisDown 5000100 populatedCache).2
  = Rejected (UpstreamFailure "503")
  /\ (ResourceCache.refreshResources redisDown 5000100 populatedCache).1
     = populatedCache
  /\ ResourceCache.run
       [ResourceCache.Refresh redisDown 5000100; ResourceCache.Get 5000200]
       (ResourceCache.mkLoop populatedCache 1 None)
     = (ResourceCache.mkLoop populatedCache 0 (Some (UpstreamFailure "503")),
        [None; None]).
Proof.
  assert (Hrejected :
            (ResourceCache.refreshResources redisDown 5000100 populatedCache).2
            = Rejected (UpstreamFailure "503")) by reflexivity.
  destruct (ResourceCache_refresh_failure redisDown 5000100 populatedCache
              (UpstreamFailure "503") 0 [ResourceCache.Get 5000200] Hrejected)
    as (Hsame & _ & Hrun).
  split; [exact Hrejected|]. split; [exact Hsame|exact Hrun].
Defined.

(** A run of the process on a stale cache: a read schedules a refresh, the
    refresh fails and ends the process, and the next read is not answered. *)
Example ResourceCache_stale_run :
  ResourceCache.run
    [ResourceCache.Get 5000000; ResourceCache.Refresh redisDown 5000100;
     ResourceCache.Get 5000200]
    (ResourceCache.mkLoop populatedCache 0 None)
  = (ResourceCache.mkLoop populatedCache 0 (Some (UpstreamFailure "503")),
     [Some (snapshot populatedCache); None; None]).
Proof. vm_compute. reflexivity. Qed.

(** * Further properties *)

(** ** The queries of a collection *)

Lemma batchesOf_facts (ids : list string) (batchSize : nat) :
  1 <= batchSize ->
  length (batchesOf ids batchSize) = ceil_div (length ids) batchSize
  /\ concat (batchesOf ids batchSize) = ids
  /\ Forall (fun batch => 1 <= length batch <= batchSize) (batchesOf ids batchSize).
Proof.
  intros HB. unfold batchesOf. split; [|split].
  - unfold chunks_upto. by rewrite length_map, length_seq.
  - rewrite concat_chunks_upto. apply take_ge.
    destruct (Nat.lt_ge_cases (ceil_div (length ids) batchSize * batchSize)
                (length ids)) as [Hlt|]; [|done].
    apply ceil_div_gt in Hlt; [lia|done].
  - apply Forall_forall. intros batch Hin.
    apply list_elem_of_lookup in Hin as [k Hk].
    apply chunks_upto_lookup in Hk as [Hlt ->].
    apply ceil_div_gt in Hlt; [|done]. rewrite length_slice. lia.
Qed.

Section Query_facts.
Context `{JsRuntime}.
Implicit Types (services : list Service.t) (w : world) (metricFn : MetricFn).

(** The log and the clock after a call of [collectMetrics]. *)
Lemma collectMetrics_log services apiToken batchSize metricFn
    (metricDefinition : loc) startTime w :
  1 <= batchSize ->
  calls (collectMetrics services apiToken batchSize metricFn metricDefinition
           startTime w).1
  = calls w ++ batchCalls metricFn apiToken (windowStart startTime w)
                 (batchesOf (map Service.id services) batchSize)
  /\ Date_now (collectMetrics services apiToken batchSize metricFn metricDefinition
                 startTime w).1 = Date_now w.
Proof.
  intros HB. rewrite collectMetrics_unfold, chunkArray_positive by done.
  fold (batchesOf (map Service.id services) batchSize). simpl.
  destruct (Promise_all _) as [results|e|]; [|done..].
  by destruct (mergeResults _ _).
Qed.

Lemma Promise_all_Rejected_elem {A : Type} (promises : list (promise A)) e :
  Rejected e ∈ promises -> exists e', Promise_all promises = Rejected e'.
Proof.
  induction promises as [|p promises IH]; [by intros ?%elem_of_nil|].
  intros [Heq|Hin]%elem_of_cons; simpl.
  - subst p. by exists e.
  - destruct (IH Hin) as [e' ->]. destruct p; by eauto.
Qed.

Lemma filter_prefix_ids (test : Service.t -> bool) services :
  Forall (fun svc => test svc = true) (List.filter test services).
Proof.
  apply Forall_forall. intros svc Hin. apply list_elem_of_In in Hin.
  by apply List.filter_In in Hin as [_ ?].
Qed.

End Query_facts.

(** X1.  With a positive batch size [collectMetrics] issues one query per
    batch, ceil(N/B) in all, in the order of the batches; each carries the
    name of the query function, the token and one common window start, and
    between 1 and B identifiers; the identifiers of the queries, put end to
    end, are the identifiers of the services.  This holds whatever the
    queries return. *)
Theorem collectMetrics_queries `{JsRuntime} (services : list Service.t)
    (apiToken : string) (batchSize : nat) (metricFn : MetricFn)
    (metricDefinition : loc) (startTime : option string) (w : world) :
  1 <= batchSize ->
  exists issued,
    calls (collectMetrics services apiToken batchSize metricFn metricDefinition
             startTime w).1 = calls w ++ issued
    /\ length issued = ceil_div (length services) batchSize
    /\ concat (map call_ids issued) = map Service.id services
    /\ Forall (fun call =>
                 call_fn call = fn_name metricFn
                 /\ call_token call = apiToken
                 /\ call_startTime call
                    = or_else startTime (toISOString (Date_now w - 2 * 60 * 1000))
                 /\ 1 <= length (call_ids call) <= batchSize) issued.
Proof.
  intros HB.
  destruct (collectMetrics_log services apiToken batchSize metricFn
              metricDefinition startTime w HB) as [Hcalls _].
  destruct (batchesOf_facts (map Service.id services) batchSize HB)
    as (Hlen & Hconcat & Hsizes).
  eexists. split; [exact Hcalls|]. unfold batchCalls. split; [|split].
  - by rewrite length_map, Hlen, length_map.
  - rewrite map_map. simpl. by rewrite map_id.
  - apply Forall_fmap. eapply Forall_impl; [exact Hsizes|].
    intros batch Hbatch. simpl. done.
Qed.

Lemma collectMetrics_queries_witness :
  1 <= 1
  /\ exists issued,
       calls (@collectMetrics integerRuntime exampleServices "token" 1 failingFn 0
                None exampleWorld).1 = calls exampleWorld ++ issued
       /\ length issued = ceil_div (length exampleServices) 1.
Proof.
  destruct (@collectMetrics_queries integerRuntime exampleServices "token" 1
              failingFn 0 None exampleWorld (le_n 1)) as (issued & Hcalls & Hlen & _).
  split; [exact (le_n 1)|]. exists issued. split; [exact Hcalls|exact Hlen].
Defined.

(** The queries of the example, executed: two services in batches of one,
    against an upstream that rejects everything. *)
Example collectMetrics_queries_example :
  calls (@collectMetrics integerRuntime exampleServices "token" 1 failingFn 0 None
           exampleWorld).1
  = [mkCall "cpuUsage" "token" ["srv-1"] "1699999880000";
     mkCall "cpuUsage" "token" ["red-1"] "1699999880000"].
Proof. vm_compute. reflexivity. Qed.

(** X2.  One rejected batch query fails the whole collection, whatever the
    other batches return: [collectMetrics] is rejected with the reason of a
    rejected query, passed on as it is; all queries have been issued, and no
    object is created or changed. *)
Theorem collectMetrics_upstream_failure `{JsRuntime} (services : list Service.t)
    (apiToken : string) (batchSize : nat) (metricFn : MetricFn)
    (metricDefinition : loc) (startTime : option string) (w : world)
    (idBatches : list (list string)) (batch : list string) (reason : string) :
  chunkArray (map Service.id services) batchSize = Some idBatches ->
  batch ∈ idBatches ->
  fn_call metricFn apiToken batch (windowStart startTime w) = Rejects reason ->
  exists reason' batch',
    (collectMetrics services apiToken batchSize metricFn metricDefinition
       startTime w).2 = Rejected (UpstreamFailure reason')
    /\ batch' ∈ idBatches
    /\ fn_call metricFn apiToken batch' (windowStart startTime w) = Rejects reason'
    /\ heap (collectMetrics services apiToken batchSize metricFn metricDefinition
               startTime w).1 = heap w
    /\ calls (collectMetrics services apiToken batchSize metricFn metricDefinition
                startTime w).1
       = calls w ++ batchCalls metricFn apiToken (windowStart startTime w) idBatches.
Proof.
  intros Hchunk Hin Hcall. rewrite collectMetrics_unfold, Hchunk. simpl.
  assert (Rejected (UpstreamFailure reason)
          ∈ batchOutcomes metricFn apiToken (windowStart startTime w) idBatches)
    as Hrejected.
  { unfold batchOutcomes. apply list_elem_of_fmap. exists batch.
    by rewrite Hcall. }
  apply Promise_all_Rejected_elem in Hrejected as [e Hall]. rewrite Hall.
  unfold batchOutcomes in Hall.
  rewrite <- (map_map (fun batch0 => fn_call metricFn apiToken batch0
                                       (windowStart startTime w)) settle) in Hall.
  apply Promise_all_settle_Rejected in Hall as (reason' & -> & Hin').
  apply list_elem_of_fmap in Hin' as (batch' & Hcall' & Hbatch').
  by exists reason', batch'.
Qed.

Lemma collectMetrics_upstream_failure_witness :
  (@collectMetrics integerRuntime exampleServices "token" 1 failingFn 0 None
     exampleWorld).2 = Rejected (UpstreamFailure "503")
  /\ heap (@collectMetrics integerRuntime exampleServices "token" 1 failingFn 0 None
             exampleWorld).1 = heap exampleWorld.
Proof.
  destruct (@collectMetrics_upstream_failure integerRuntime exampleServices "token"
              1 failingFn 0 None exampleWorld [["srv-1"]; ["red-1"]] ["red-1"] "503")
    as (reason' & batch' & Hrun & _ & Hcall & Hheap & _).
  - vm_compute. reflexivity.
  - apply elem_of_cons. right. apply elem_of_cons. by left.
  - reflexivity.
  - split; [|exact Hheap]. rewrite Hrun. simpl in Hcall. by injection Hcall as ->.
Defined.

(** ** The queries of the filtered collectors *)

Section Filtered_collectors.
Context `{JsRuntime}.

Lemma batches_prefix (test : string -> bool) (ids : list string) (batchSize : nat) :
  1 <= batchSize ->
  Forall (fun id => test id = true) ids ->
  Forall (Forall (fun id => test id = true)) (batchesOf ids batchSize).
Proof.
  intros HB Hids. destruct (batchesOf_facts ids batchSize HB) as (_ & Hconcat & _).
  rewrite <- Hconcat in Hids. by apply Forall_concat in Hids.
Qed.

Lemma filter_ids (test : Service.t -> bool) (idTest : string -> bool)
    (services : list Service.t) :
  (forall svc, test svc = idTest (Service.id svc)) ->
  Forall (fun id => idTest id = true) (map Service.id (List.filter test services)).
Proof.
  intros Htest. apply Forall_fmap. eapply Forall_impl; [apply filter_prefix_ids|].
  intros svc. simpl. by rewrite Htest.
Qed.

End Filtered_collectors.

(** X3.  [collectBandwidth] queries the bandwidth function only, with a
    window that starts one hour before now (an ISO timestamp is not the empty
    string), and only for identifiers that start with srv-: for a positive
    batch size the identifiers of its queries, put end to end, are exactly
    the srv- identifiers of the resource list, in their order. *)
Theorem collectBandwidth_queries `{JsRuntime} (api : RenderApi)
    (services : list Service.t) (apiToken : string) (batchSize : nat) (w : world) :
  1 <= batchSize ->
  toISOString (Date_now w - 60 * 60 * 1000) <> EmptyString ->
  exists issued,
    calls (collectBandwidth api services apiToken batchSize w).1 = calls w ++ issued
    /\ concat (map call_ids issued)
       = map Service.id (List.filter (startsWith "srv-") services)
    /\ Forall (fun call =>
                 call_fn call = fn_name (bandwidth api)
                 /\ call_token call = apiToken
                 /\ call_startTime call = toISOString (Date_now w - 60 * 60 * 1000)
                 /\ Forall (fun id => String.prefix "srv-" id = true) (call_ids call))
         issued.
Proof.
  intros HB Hiso. unfold collectBandwidth. simpl. case_decide as Hempty.
  - exists []. simpl. rewrite app_nil_r. split; [done|]. split; [|done].
    by destruct (List.filter (startsWith "srv-") services).
  - set (relevant := List.filter (startsWith "srv-") services) in *.
    destruct (collectMetrics_log relevant apiToken batchSize (bandwidth api)
                (length (heap w))
                (Some (toISOString (Date_now w - 60 * 60 * 1000)))
                (mkWorld (heap w ++ [MetricDefinition.mk "render_service_bandwidth"
                                       "Bandwidth used by a render service" "gauge"])
                   (calls w) (Date_now w)) HB) as [Hcalls _].
    destruct (batchesOf_facts (map Service.id relevant) batchSize HB)
      as (_ & Hconcat & _).
    eexists. split; [exact Hcalls|]. unfold batchCalls. split.
    + rewrite map_map. simpl. by rewrite map_id.
    + apply Forall_fmap.
      eapply Forall_impl;
        [apply (batches_prefix (String.prefix "srv-") _ _ HB);
         by apply (filter_ids (startsWith "srv-"))|].
      intros batch Hbatch. simpl. repeat split; try done.
      unfold windowStart, or_else, truthy. simpl.
      by rewrite bool_decide_eq_false_2.
Qed.

Lemma collectBandwidth_queries_witness :
  1 <= 50
  /\ exists issued,
       calls (@collectBandwidth integerRuntime exampleApi exampleServices "token" 50
                exampleWorld).1 = calls exampleWorld ++ issued
       /\ concat (map call_ids issued) = ["srv-1"].
Proof.
  assert (Hbatch : 1 <= 50) by lia.
  assert (Hiso : @toISOString integerRuntime (Date_now exampleWorld - 60 * 60 * 1000)
                 <> EmptyString) by (vm_compute; discriminate).
  destruct (@collectBandwidth_queries integerRuntime exampleApi exampleServices
              "token" 50 exampleWorld Hbatch Hiso) as (issued & Hcalls & Hids & _).
  split; [exact Hbatch|]. exists issued. split; [exact Hcalls|exact Hids].
Defined.

(** X4.  [collectActiveConnections] queries the connection function only,
    with the default window that starts two minutes before now, and only for
    identifiers that start with red- or dpg-: for a positive batch size the
    identifiers of its queries, put end to end, are exactly those identifiers
    of the resource list, in their order. *)
Theorem collectActiveConnections_queries `{JsRuntime} (api : RenderApi)
    (services : list Service.t) (apiToken : string) (batchSize : nat) (w : world) :
  1 <= batchSize ->
  exists issued,
    calls (collectActiveConnections api services apiToken batchSize w).1
    = calls w ++ issued
    /\ concat (map call_ids issued)
       = map Service.id
           (List.filter (fun svc => startsWith "red-" svc || startsWith "dpg-" svc)
              services)
    /\ Forall (fun call =>
                 call_fn call = fn_name (activeConnections api)
                 /\ call_token call = apiToken
                 /\ call_startTime call = toISOString (Date_now w - 2 * 60 * 1000)
                 /\ Forall (fun id => String.prefix "red-" id || String.prefix "dpg-" id
                                      = true) (call_ids call))
         issued.
Proof.
  intros HB. unfold collectActiveConnections. simpl. case_decide as Hempty.
  - exists []. simpl. rewrite app_nil_r. split; [done|]. split; [|done].
    by destruct (List.filter _ services).
  - set (relevant := List.filter _ services) in *.
    destruct (collectMetrics_log relevant apiToken batchSize (activeConnections api)
                (length (heap w)) None
                (mkWorld (heap w ++ [MetricDefinition.mk
                                       "render_service_active_connections"
                                       "Active connections for redis or postgres servers"
                                       "gauge"])
                   (calls w) (Date_now w)) HB) as [Hcalls _].
    eexists. split; [exact Hcalls|]. unfold batchCalls. split.
    + rewrite map_map. simpl. rewrite map_id.
      by destruct (batchesOf_facts (map Service.id relevant) batchSize HB)
        as (_ & -> & _).
    + apply Forall_fmap.
      eapply Forall_impl;
        [apply (batches_prefix
                  (fun id => String.prefix "red-" id || String.prefix "dpg-" id)
                  _ _ HB);
         by apply (filter_ids
                     (fun svc => startsWith "red-" svc || startsWith "dpg-" svc))|].
      intros batch Hbatch. simpl. done.
Qed.

Lemma collectActiveConnections_queries_witness :
  1 <= 50
  /\ exists issued,
       calls (@collectActiveConnections integerRuntime exampleApi exampleServices
                "token" 50 exampleWorld).1 = calls exampleWorld ++ issued
       /\ concat (map call_ids issued) = ["red-1"].
Proof.
  assert (Hbatch : 1 <= 50) by lia.
  destruct (@collectActiveConnections_queries integerRuntime exampleApi
              exampleServices "token" 50 exampleWorld Hbatch)
    as (issued & Hcalls & Hids & _).
  split; [exact Hbatch|]. exists issued. split; [exact Hcalls|exact Hids].
Defined.

(** ** The count of services *)

(** X5.  [collectServiceCountMetric] always gives one unlabelled value, the
    number of services, under a new definition; it issues no query and keeps
    every existing object.  Formatted, its block is the HELP line, the TYPE
    line and one value line with empty braces. *)
Theorem collectServiceCountMetric_block `{JsRuntime} (services : list Service.t)
    (w : world) :
  formatMetricResult (collectServiceCountMetric services w).1
    (collectServiceCountMetric services w).2
  = "# HELP render_service_count Total number of services" +:+ LF
    +:+ "# TYPE render_service_count gauge" +:+ LF
    +:+ "render_service_count{} "
    +:+ Number_toString (Number_ofLength (length services)) +:+ LF
  /\ calls (collectServiceCountMetric services w).1 = calls w
  /\ heap w `prefix_of` heap (collectServiceCountMetric services w).1
  /\ heap w !! MetricResult.definition (collectServiceCountMetric services w).2 = None.
Proof.
  unfold collectServiceCountMetric, alloc. simpl. split; [|split; [done|split]].
  - unfold formatMetricResult. simpl. rewrite deref_fresh. reflexivity.
  - by apply prefix_app_r.
  - by apply lookup_ge_None_2.
Qed.

(** ** The merge *)

Section Merge_facts.
Context `{JsRuntime}.

Lemma kept_toMetricValue serviceMap (metric : MetricResponse.t) :
  kept metric = true <-> is_Some (toMetricValue serviceMap metric).
Proof.
  unfold kept, toMetricValue.
  destruct (MetricResponse.labels metric) as [[|label more]|];
    [by split; [|intros []]| |by split; [|intros []]].
  destruct (MetricResponse.values metric) as [|p ps] using rev_ind.
  - by split; [|intros []].
  - rewrite last_snoc. split; [by eauto|]. intros _. by destruct ps.
Qed.

Lemma omap_toMetricValue serviceMap (metrics : list MetricResponse.t) :
  Forall2 (fun metric point => toMetricValue serviceMap metric = Some point)
    (List.filter kept metrics) (omap (toMetricValue serviceMap) metrics).
Proof.
  induction metrics as [|metric metrics IH]; [constructor|].
  change (omap (toMetricValue serviceMap) (metric :: metrics))
    with (match toMetricValue serviceMap metric with
          | Some point => point :: omap (toMetricValue serviceMap) metrics
          | None => omap (toMetricValue serviceMap) metrics
          end).
  simpl. pose proof (kept_toMetricValue serviceMap metric) as Hkept.
  destruct (kept metric).
  - destruct (proj1 Hkept eq_refl) as [point Hpoint]. rewrite Hpoint.
    by constructor.
  - destruct (toMetricValue serviceMap metric) as [point|] eqn:Hpoint; [|done].
    by pose proof (proj2 Hkept (ex_intro _ point eq_refl)).
Qed.

End Merge_facts.

(** X6.  The merge keeps exactly the series that have at least one label
    and one data point, one value for each, in the order in which the batches
    and then the series came back; the value of a point is the value of the
    last data point of its series.  Null entries and skipped series leave no
    trace. *)
Theorem mergeResults_kept `{JsRuntime} (serviceMap : gmap string Service.t)
    (allMetricsResults : list (list (option MetricResponse.t))) :
  Forall2 (fun metric point =>
             toMetricValue serviceMap metric = Some point
             /\ last (DataPoint.value <$> MetricResponse.values metric)
                = Some (MetricValue.value point))
    (List.filter kept (nonNull (concat allMetricsResults)))
    (mergeResults serviceMap allMetricsResults)
  /\ length (mergeResults serviceMap allMetricsResults)
     = length (List.filter kept (nonNull (concat allMetricsResults))).
Proof.
  assert (Hall : Forall2 (fun metric point =>
                            toMetricValue serviceMap metric = Some point
                            /\ last (DataPoint.value <$> MetricResponse.values metric)
                               = Some (MetricValue.value point))
                   (List.filter kept (nonNull (concat allMetricsResults)))
                   (mergeResults serviceMap allMetricsResults)).
  { unfold mergeResults, nonNull.
    eapply Forall2_impl; [apply omap_toMetricValue|].
    intros metric point Hpoint. split; [done|].
    apply toMetricValue_Some in Hpoint as (upstream & latest & _ & _ & Hlast & ->).
    simpl. by rewrite fmap_last, Hlast. }
  split; [done|]. symmetry. by eapply Forall2_length.
Qed.

(** ** The handler as a whole *)

Section Handler_whole.
Context `{JsRuntime}.
Implicit Types (services : list Service.t) (w : world).

Lemma Promise_all_catchOutcome {A : Type} (outcomes : list (promise A)) e :
  Promise_all (map catchOutcome outcomes) <> Rejected e.
Proof.
  induction outcomes as [|[a|e'|] outcomes IH]; simpl; [done|..];
    by destruct (Promise_all (map catchOutcome outcomes)).
Qed.

Lemma launch_logs {A : Type} (ms : list (Async A))
    (added : list (Z -> list UpstreamCall)) w :
  Forall2 logs ms added ->
  calls (launch ms w).1 = calls w ++ concat (map (fun f => f (Date_now w)) added)
  /\ Date_now (launch ms w).1 = Date_now w.
Proof.
  intros Hms. revert w. induction Hms as [|m f ms added Hm _ IH]; intros w; simpl.
  - by rewrite app_nil_r.
  - destruct (Hm w) as [Hcalls Hnow]. destruct (m w) as [w1 p]. simpl in *.
    destruct (IH w1) as [Hcalls' Hnow']. destruct (launch ms w1) as [w2 ps].
    simpl in *. rewrite Hcalls', Hcalls, Hnow', Hnow. by rewrite app_assoc.
Qed.

Lemma batchesOf_nil (batchSize : nat) : batchesOf [] batchSize = [].
Proof. unfold batchesOf. simpl. by rewrite ceil_div_zero. Qed.

Lemma familyCollectors_logs (config : Config.t) (api : RenderApi) services :
  1 <= Config.batchSize config ->
  Forall2 logs (familyCollectors config api services)
    [ (fun now => batchCalls (instanceCount api) (Config.renderApiToken config)
                    (toISOString (now - 2 * 60 * 1000))
                    (batchesOf (map Service.id services) (Config.batchSize config)));
      (fun _ => []);
      (fun now => batchCalls (cpuUsage api) (Config.renderApiToken config)
                    (toISOString (now - 2 * 60 * 1000))
                    (batchesOf (map Service.id services) (Config.batchSize config)));
      (fun now => batchCalls (memoryUsage api) (Config.renderApiToken config)
                    (toISOString (now - 2 * 60 * 1000))
                    (batchesOf (map Service.id services) (Config.batchSize config)));
      (fun now => batchCalls (bandwidth api) (Config.renderApiToken config)
                    (or_else (Some (toISOString (now - 60 * 60 * 1000)))
                       (toISOString (now - 2 * 60 * 1000)))
                    (batchesOf
                       (map Service.id (List.filter (startsWith "srv-") services))
                       (Config.batchSize config)));
      (fun now => batchCalls (activeConnections api) (Config.renderApiToken config)
                    (toISOString (now - 2 * 60 * 1000))
                    (batchesOf
                       (map Service.id
                          (List.filter (fun svc => startsWith "red-" svc
                                                   || startsWith "dpg-" svc) services))
                       (Config.batchSize config))) ].
Proof.
  intros HB. unfold familyCollectors.
  repeat (apply Forall2_cons; split); try apply Forall2_nil_2; intros w.
  - apply (collectMetrics_log services _ _ _ _ None
             (mkWorld (heap w ++ [_]) (calls w) (Date_now w)) HB).
  - unfold collectServiceCountMetric, alloc. simpl. by rewrite app_nil_r.
  - apply (collectMetrics_log services _ _ _ _ None
             (mkWorld (heap w ++ [_]) (calls w) (Date_now w)) HB).
  - apply (collectMetrics_log services _ _ _ _ None
             (mkWorld (heap w ++ [_]) (calls w) (Date_now w)) HB).
  - unfold collectBandwidth. simpl. case_decide as Hempty.
    + destruct (List.filter (startsWith "srv-") services); [|done].
      simpl. by rewrite batchesOf_nil, app_nil_r.
    + apply (collectMetrics_log _ _ _ _ _ (Some _)
               (mkWorld (heap w ++ [_]) (calls w) (Date_now w)) HB).
  - unfold collectActiveConnections. simpl. case_decide as Hempty.
    + destruct (List.filter _ services); [|done].
      simpl. by rewrite batchesOf_nil, app_nil_r.
    + apply (collectMetrics_log _ _ _ _ _ None
               (mkWorld (heap w ++ [_]) (calls w) (Date_now w)) HB).
Qed.

End Handler_whole.

(** X7.  The handler never rejects: whatever the upstream does, its promise
    is fulfilled with a reply (or, with a batch size of zero, may never
    settle).
    When the fetch of the resource list is rejected the reply is 500 with the
    text Error fetching metrics, no query is issued and no object created.
    With a positive batch size there always is a reply, and its status is 500
    exactly when the fetch of the resource list was rejected and 200 exactly
    when it resolved: no failure of a metric query can turn a scrape into an
    error. *)
Theorem metrics_never_rejects `{JsRuntime} (config : Config.t) (api : RenderApi)
    (w : world) :
  (forall e, (metrics config api w).2 <> Rejected e)
  /\ (forall reason,
        getServices api (Config.renderApiToken config)
          (Config.serviceNameFilter config) = Rejects reason ->
        metrics config api w
        = (w, Fulfilled (Reply.mk 500 [] "Error fetching metrics")))
  /\ (1 <= Config.batchSize config ->
      exists reply,
        (metrics config api w).2 = Fulfilled reply
        /\ (Reply.statusCode reply = 500
            <-> exists reason,
                  getServices api (Config.renderApiToken config)
                    (Config.serviceNameFilter config) = Rejects reason)
        /\ (Reply.statusCode reply = 200
            <-> exists services,
                  getServices api (Config.renderApiToken config)
                    (Config.serviceNameFilter config) = Resolves services)).
Proof.
  unfold metrics.
  destruct (getServices api _ _) as [services|reason] eqn:Hservices.
  - rewrite launchedCollectors_caught.
    split; [|split; [done|]].
    + intros e.
      pose proof (Promise_all_catchOutcome
                    (launch (familyCollectors config api services) w).2) as Hnot.
      by destruct (Promise_all _) as [results|e'|]; [| |]; simpl;
        try done; intros [= <-]; eapply Hnot.
    + intros HB.
      pose proof (launch_settled (familyCollectors config api services) w
                    (familyCollectors_settle config api services HB)) as Hsettled.
      rewrite (Promise_all_caught _ Hsettled). eexists. split; [done|].
      unfold respond. case_decide as Hlen.
      * apply (nonNull_caught _ Hsettled) in Hlen.
        by apply familyCollectors_not_all_failed in Hlen.
      * simpl. split; split; try done; [by intros [? ?]|by eauto].
  - split; [done|]. split; [done|]. intros _. eexists. split; [done|].
    simpl. split; split; try done; [by eauto|by intros [? ?]].
Qed.

Lemma metrics_never_rejects_witness :
  1 <= Config.batchSize exampleConfig
  /\ exists reply,
       (@metrics integerRuntime exampleConfig exampleApi exampleWorld).2
       = Fulfilled reply
       /\ (Reply.statusCode reply = 200
           <-> exists services,
                 getServices exampleApi (Config.renderApiToken exampleConfig)
                   (Config.serviceNameFilter exampleConfig) = Resolves services).
Proof.
  assert (Hbatch : 1 <= Config.batchSize exampleConfig) by (simpl; lia).
  destruct (@metrics_never_rejects integerRuntime exampleConfig exampleApi
              exampleWorld) as (_ & _ & Hreply).
  destruct (Hreply Hbatch) as (reply & Hrun & _ & Hok).
  split; [exact Hbatch|]. exists reply. split; [exact Hrun|exact Hok].
Defined.

(** X8.  With a positive batch size, a scrape whose fetch of N resources
    succeeds issues exactly the queries of [scrapeQueries], in that order:
    ceil(N/B) each for instance counts, CPU and memory, then the bandwidth
    queries for the srv- resources only and the connection queries for the
    red- and dpg- resources only; every query carries the configured token.
    The failure of one query stops none of the others from being issued. *)
Theorem metrics_queries `{JsRuntime} (config : Config.t) (api : RenderApi)
    (services : list Service.t) (w : world) :
  1 <= Config.batchSize config ->
  getServices api (Config.renderApiToken config) (Config.serviceNameFilter config)
  = Resolves services ->
  calls (metrics config api w).1
  = calls w ++ scrapeQueries config api services (Date_now w)
  /\ length (scrapeQueries config api services (Date_now w))
     = 3 * ceil_div (length services) (Config.batchSize config)
       + ceil_div (length (List.filter (startsWith "srv-") services))
           (Config.batchSize config)
       + ceil_div (length (List.filter (fun svc => startsWith "red-" svc
                                                   || startsWith "dpg-" svc) services))
           (Config.batchSize config)
  /\ Forall (fun call => call_token call = Config.renderApiToken config)
       (scrapeQueries config api services (Date_now w)).
Proof.
  intros HB Hservices. split; [|split].
  - assert (calls (metrics config api w).1
            = calls (launch (familyCollectors config api services) w).1) as ->.
    { unfold metrics. rewrite Hservices, launchedCollectors_caught.
      by destruct (Promise_all _). }
    destruct (launch_logs _ _ w (familyCollectors_logs config api services HB))
      as [-> _].
    f_equal. unfold scrapeQueries. simpl. by rewrite app_nil_r.
  - unfold scrapeQueries, batchCalls. rewrite !length_app, !length_map.
    destruct (batchesOf_facts (map Service.id services) (Config.batchSize config) HB)
      as (-> & _).
    destruct (batchesOf_facts
                (map Service.id (List.filter (startsWith "srv-") services))
                (Config.batchSize config) HB) as (-> & _).
    destruct (batchesOf_facts
                (map Service.id
                   (List.filter (fun svc => startsWith "red-" svc
                                            || startsWith "dpg-" svc) services))
                (Config.batchSize config) HB) as (-> & _).
    rewrite !length_map. lia.
  - unfold scrapeQueries, batchCalls. rewrite !Forall_app.
    repeat split; by apply Forall_fmap, Forall_true.
Qed.

Lemma metrics_queries_witness :
  1 <= Config.batchSize exampleConfig
  /\ calls (@metrics integerRuntime exampleConfig exampleApi exampleWorld).1
     = calls exampleWorld
       ++ @scrapeQueries integerRuntime exampleConfig exampleApi exampleServices
            (Date_now exampleWorld)
  /\ length (@scrapeQueries integerRuntime exampleConfig exampleApi exampleServices
               (Date_now exampleWorld)) = 5.
Proof.
  assert (Hbatch : 1 <= Config.batchSize exampleConfig) by (simpl; lia).
  destruct (@metrics_queries integerRuntime exampleConfig exampleApi exampleServices
              exampleWorld Hbatch eq_refl) as (Hcalls & _ & _).
  split; [exact Hbatch|]. split; [exact Hcalls|]. vm_compute. reflexivity.
Defined.

(** ** The resource cache, further *)

Lemma refreshResources_cases api now this :
  (ResourceCache.refreshResources api now this).1 = this
  \/ exists newServices newRedises newPostgreses,
       fetched api (ResourceCache.apiToken this) (ResourceCache.serviceNameFilter this)
       = Some (ResourceCache.mkResources newServices newRedises newPostgreses)
       /\ (ResourceCache.refreshResources api now this).1
          = ResourceCache.mk newServices newRedises newPostgreses (Some now)
              (ResourceCache.apiToken this) (ResourceCache.serviceNameFilter this)
              (ResourceCache.maxAge this).
Proof.
  unfold ResourceCache.refreshResources, fetched.
  destruct (ResourceCache.getServices api _ _) as [newServices|];
    destruct (ResourceCache.listRedis api _ _) as [newRedises|];
    destruct (ResourceCache.listPostgres api _ _) as [newPostgreses|];
    simpl; try (by left).
  right. by exists newServices, newRedises, newPostgreses.
Qed.

(** X9.  A refresh whose three fetches resolve is fulfilled and replaces
    the three lists and the refresh time together, keeping the token, the
    filter and the maximal age.  From then on [getResources] returns exactly
    the fetched lists, and it schedules the next refresh exactly for reads
    that come more than the maximal age after the refresh. *)
Theorem ResourceCache_refresh_success (api : ResourceCache.Api) (now : Z)
    (this : ResourceCache.t) newServices newRedises newPostgreses :
  ResourceCache.getServices api (ResourceCache.apiToken this)
    (ResourceCache.serviceNameFilter this) = Resolves newServices ->
  ResourceCache.listRedis api (ResourceCache.apiToken this)
    (ResourceCache.serviceNameFilter this) = Resolves newRedises ->
  ResourceCache.listPostgres api (ResourceCache.apiToken this)
    (ResourceCache.serviceNameFilter this) = Resolves newPostgreses ->
  ResourceCache.refreshResources api now this
  = (ResourceCache.mk newServices newRedises newPostgreses (Some now)
       (ResourceCache.apiToken this) (ResourceCache.serviceNameFilter this)
       (ResourceCache.maxAge this),
     Fulfilled ())
  /\ (forall later,
        (ResourceCache.getResources later
           (ResourceCache.refreshResources api now this).1).2
        = ResourceCache.mkResources newServices newRedises newPostgreses)
  /\ (forall later,
        (ResourceCache.getResources later
           (ResourceCache.refreshResources api now this).1).1 = true
        <-> (ResourceCache.maxAge this < later - now)%Z).
Proof.
  intros Hservices Hredis Hpostgres.
  assert (Hrun : ResourceCache.refreshResources api now this
                 = (ResourceCache.mk newServices newRedises newPostgreses (Some now)
                      (ResourceCache.apiToken this)
                      (ResourceCache.serviceNameFilter this)
                      (ResourceCache.maxAge this),
                    Fulfilled ())).
  { unfold ResourceCache.refreshResources.
    by rewrite Hservices, Hredis, Hpostgres. }
  rewrite Hrun. split; [done|]. split; [done|].
  intros later. unfold ResourceCache.getResources, ResourceCache.isStale. simpl.
  apply Z.ltb_lt.
Qed.

Lemma ResourceCache_refresh_success_witness :
  ResourceCache.lastRefreshed populatedCache = Some 1000%Z
  /\ (ResourceCache.getResources 2000 populatedCache).2
     = ResourceCache.mkResources exampleServices [Redis.mk "red-1" "cache"] []
  /\ ((ResourceCache.getResources 3601001 populatedCache).1 = true
      <-> (3600000 < 3601001 - 1000)%Z).
Proof.
  destruct (ResourceCache_refresh_success allUp 1000
              (ResourceCache.new "token" EmptyString None)
              exampleServices [Redis.mk "red-1" "cache"] [] eq_refl eq_refl eq_refl)
    as (Hrun & Hget & Hstale).
  split; [reflexivity|]. split; [exact (Hget 2000%Z)|exact (Hstale 3601001%Z)].
Defined.

Lemma run_invariant (Inv : ResourceCache.t -> Prop) events l :
  Inv (ResourceCache.cache l) ->
  (forall api now c, ResourceCache.Refresh api now ∈ events -> Inv c ->
                     Inv (ResourceCache.refreshResources api now c).1) ->
  Inv (ResourceCache.cache (ResourceCache.run events l).1)
  /\ Forall (fun out => forall r, out = Some r -> exists c, Inv c /\ r = snapshot c)
       (ResourceCache.run events l).2.
Proof.
  revert l. induction events as [|ev events IH]; intros l Hl Hstep.
  - simpl. split; [done|apply Forall_nil_2].
  - assert (Hrest : forall api now c, ResourceCache.Refresh api now ∈ events ->
                      Inv c -> Inv (ResourceCache.refreshResources api now c).1).
    { intros api now c Hin. apply Hstep. by right. }
    assert (Hnext : forall l1 out,
              Inv (ResourceCache.cache l1) ->
              (forall r, out = Some r -> exists c, Inv c /\ r = snapshot c) ->
              ResourceCache.step ev l = (l1, out) ->
              Inv (ResourceCache.cache (ResourceCache.run (ev :: events) l).1)
              /\ Forall (fun out => forall r, out = Some r ->
                                      exists c, Inv c /\ r = snapshot c)
                   (ResourceCache.run (ev :: events) l).2).
    { intros l1 out Hl1 Hout Hev. cbn [ResourceCache.run]. rewrite Hev.
      specialize (IH l1 Hl1 Hrest).
      destruct (ResourceCache.run events l1) as [l2 outs]. simpl in *.
      destruct IH as [Hfinal Houts]. split; [done|].
      apply Forall_cons. by split. }
    unfold ResourceCache.step in Hnext.
    destruct (ResourceCache.exited l) as [e|]; [by apply (Hnext l None)|].
    destruct ev as [now|api now].
    + eapply Hnext; [| |reflexivity]; [done|].
      intros r [= <-]. by exists (ResourceCache.cache l).
    + destruct (ResourceCache.timers l) as [|n]; [by apply (Hnext l None)|].
      assert (Hnew : Inv (ResourceCache.refreshResources api now
                            (ResourceCache.cache l)).1).
      { apply Hstep; [by left|done]. }
      destruct (ResourceCache.refreshResources api now (ResourceCache.cache l))
        as [this [ | |]]; (eapply Hnext; [| |reflexivity]; done).
Qed.

(** X10.  Readers never see a mixed snapshot.  In every run of the event
    loop, whatever fails and in whatever order, each [getResources] that is
    answered returns either the snapshot the run started with or the three
    lists that one single refresh of the run fetched together; the token, the
    filter and the maximal age of the cache never change. *)
Theorem ResourceCache_snapshots_whole (this : ResourceCache.t)
    (events : list ResourceCache.event) (timers : nat) :
  Forall (fun out =>
            forall r, out = Some r ->
              r = snapshot this
              \/ exists api now,
                   ResourceCache.Refresh api now ∈ events
                   /\ fetched api (ResourceCache.apiToken this)
                        (ResourceCache.serviceNameFilter this) = Some r)
    (ResourceCache.run events (ResourceCache.mkLoop this timers None)).2
  /\ ResourceCache.apiToken
       (ResourceCache.cache
          (ResourceCache.run events (ResourceCache.mkLoop this timers None)).1)
     = ResourceCache.apiToken this
  /\ ResourceCache.serviceNameFilter
       (ResourceCache.cache
          (ResourceCache.run events (ResourceCache.mkLoop this timers None)).1)
     = ResourceCache.serviceNameFilter this
  /\ ResourceCache.maxAge
       (ResourceCache.cache
          (ResourceCache.run events (ResourceCache.mkLoop this timers None)).1)
     = ResourceCache.maxAge this.
Proof.
  pose (Inv := fun c : ResourceCache.t =>
          ResourceCache.apiToken c = ResourceCache.apiToken this
          /\ ResourceCache.serviceNameFilter c = ResourceCache.serviceNameFilter this
          /\ ResourceCache.maxAge c = ResourceCache.maxAge this
          /\ (snapshot c = snapshot this
              \/ exists api now,
                   ResourceCache.Refresh api now ∈ events
                   /\ fetched api (ResourceCache.apiToken this)
                        (ResourceCache.serviceNameFilter this)
                      = Some (snapshot c))).
  destruct (run_invariant Inv events (ResourceCache.mkLoop this timers None))
    as [(Htoken & Hfilter & Hage & _) Houts].
  - unfold Inv. simpl. by eauto.
  - intros api now c Hin (Htoken & Hfilter & Hage & Hsnap).
    destruct (refreshResources_cases api now c)
      as [->|(s & r & p & Hfetched & ->)]; [done|].
    unfold Inv. simpl. repeat split; try done.
    right. exists api, now. split; [done|]. by rewrite <- Htoken, <- Hfilter.
  - split; [|done]. eapply Forall_impl; [exact Houts|].
    intros out Hout r Hr. destruct (Hout r Hr) as (c & (_ & _ & _ & Hc) & ->).
    destruct Hc as [->|Hc]; [by left|by right].
Qed.

(** X11.  The cache has no guard against duplicate refreshes: every read of
    a stale cache schedules one more refresh.  From a cache that is stale at
    each of the given times, that many reads in a row leave that many more
    refreshes scheduled, and each returns the same snapshot.  A cache that
    the constructor has just made is stale at every time, whatever its
    token, filter and maximal age, so this holds for all its reads until a
    refresh runs. *)
Theorem ResourceCache_duplicate_refreshes (this : ResourceCache.t)
    (times : list Z) (timers : nat) :
  (Forall (fun now => ResourceCache.isStale now this = true) times ->
   ResourceCache.run (map ResourceCache.Get times)
     (ResourceCache.mkLoop this timers None)
   = (ResourceCache.mkLoop this (timers + length times) None,
      map (fun _ => Some (snapshot this)) times))
  /\ (forall apiToken serviceNameFilter maxAgeMs now,
        ResourceCache.isStale now
          (ResourceCache.new apiToken serviceNameFilter maxAgeMs) = true)
  /\ (forall apiToken serviceNameFilter maxAgeMs,
        ResourceCache.run (map ResourceCache.Get times)
          (ResourceCache.mkLoop
             (ResourceCache.new apiToken serviceNameFilter maxAgeMs) timers None)
        = (ResourceCache.mkLoop
             (ResourceCache.new apiToken serviceNameFilter maxAgeMs)
             (timers + length times) None,
           map (fun _ => Some (ResourceCache.mkResources [] [] [])) times)).
Proof.
  assert (Hreads : forall c : ResourceCache.t,
            Forall (fun now => ResourceCache.isStale now c = true) times ->
            forall n,
              ResourceCache.run (map ResourceCache.Get times)
                (ResourceCache.mkLoop c n None)
              = (ResourceCache.mkLoop c (n + length times) None,
                 map (fun _ => Some (snapshot c)) times)).
  { intros c Hstale.
    induction Hstale as [|now times' Hnow _ IH]; intros n; simpl.
    - by rewrite Nat.add_0_r.
    - rewrite Hnow, (IH (S n)). do 2 f_equal. lia. }
  split; [intros Hstale; by apply Hreads|]. split; [done|].
  intros apiToken serviceNameFilter maxAgeMs.
  rewrite Hreads; [done|]. by apply Forall_forall.
Qed.

Lemma ResourceCache_duplicate_refreshes_witness :
  Forall (fun now => ResourceCache.isStale now populatedCache = true)
    [3601001%Z; 3601002%Z; 3601003%Z]
  /\ ResourceCache.run
       (map ResourceCache.Get [3601001%Z; 3601002%Z; 3601003%Z])
       (ResourceCache.mkLoop populatedCache 0 None)
     = (ResourceCache.mkLoop populatedCache 3 None,
        [Some (snapshot populatedCache); Some (snapshot populatedCache);
         Some (snapshot populatedCache)]).
Proof.
  assert (Hstale : Forall (fun now => ResourceCache.isStale now populatedCache = true)
                     [3601001%Z; 3601002%Z; 3601003%Z]).
  { repeat (apply Forall_cons; split; [reflexivity|]). apply Forall_nil_2. }
  split; [exact Hstale|].
  exact (proj1 (ResourceCache_duplicate_refreshes populatedCache
                  [3601001%Z; 3601002%Z; 3601003%Z] 0) Hstale).
Defined.

(** ** Configuration and authentication *)

Lemma requiredEnvVar_cases `{JsRuntime} (env : gmap string string) (name : string) :
  (truthyOption (env !! name) = true
   /\ exists value, env !! name = Some value /\ requiredEnvVar env name = inr value)
  \/ (truthyOption (env !! name) = false
      /\ requiredEnvVar env name
         = inl (Error ("Required environment variable " +:+ name +:+ " is not set"))).
Proof.
  unfold requiredEnvVar, truthyOption.
  destruct (env !! name) as [value|]; [|by right].
  destruct (truthy value); [left|by right]. split; [done|]. by exists value.
Qed.

(** X12.  [loadConfig] succeeds exactly when NODE_ENV and RENDER_API_TOKEN
    are both set and not empty.  When it fails, the error names NODE_ENV if
    that one is missing or empty, and RENDER_API_TOKEN otherwise.  When it
    succeeds, the configuration carries the two values, the port parsed from
    PORT or from 3000 when PORT is missing or empty, the name filter or the
    empty string, the batch size 50, and the three authentication variables
    as they are. *)
Theorem loadConfig_required `{JsRuntime} (env : gmap string string) :
  ((exists config, loadConfig env = inr config)
   <-> truthyOption (env !! "NODE_ENV") = true
       /\ truthyOption (env !! "RENDER_API_TOKEN") = true)
  /\ (truthyOption (env !! "NODE_ENV") = false ->
      loadConfig env
      = inl (Error "Required environment variable NODE_ENV is not set"))
  /\ (truthyOption (env !! "NODE_ENV") = true ->
      truthyOption (env !! "RENDER_API_TOKEN") = false ->
      loadConfig env
      = inl (Error "Required environment variable RENDER_API_TOKEN is not set"))
  /\ (forall config, loadConfig env = inr config ->
        env !! "NODE_ENV" = Some (Config.env config)
        /\ env !! "RENDER_API_TOKEN" = Some (Config.renderApiToken config)
        /\ Config.port config = parseInt (or_else (env !! "PORT") "3000")
        /\ Config.serviceNameFilter config
           = or_else (env !! "SERVICE_NAME_FILTER") EmptyString
        /\ Config.batchSize config = 50
        /\ Config.auth config
           = Config.mkAuth (env !! "AUTH_USERNAME") (env !! "AUTH_PASSWORD")
               (env !! "AUTH_BEARER_TOKEN")).
Proof.
  unfold loadConfig.
  destruct (requiredEnvVar_cases env "NODE_ENV")
    as [(Henv & nodeEnv & Hlookup & ->)|(Henv & ->)];
    rewrite Henv.
  - destruct (requiredEnvVar_cases env "RENDER_API_TOKEN")
      as [(Htoken & token & Hlookup' & ->)|(Htoken & ->)];
      rewrite Htoken.
    + split; [split; [done|by eauto]|]. split; [done|]. split; [done|].
      by intros config [= <-].
    + split; [split; [by intros [? ?]|by intros [_ ?]]|].
      split; [done|]. split; [done|]. by intros config.
  - split; [split; [by intros [? ?]|by intros [? _]]|].
    split; [done|]. split; [done|]. by intros config.
Qed.

Section Authentication_facts.
Context `{JsRuntime}.

Lemma substring_from_append (t : string) :
  String_substring_from 7 ("Bearer " +:+ t) = t.
Proof. reflexivity. Qed.

Lemma prefix_inv (p s : string) :
  String.prefix p s = true -> s = p +:+ String_substring_from (String.length p) s.
Proof.
  revert s. induction p as [|c p IH]; intros s Hprefix; [done|].
  destruct s as [|c' s]; [done|]. simpl in Hprefix.
  destruct (ascii_dec c c') as [->|]; [|done].
  change (String c' s
          = String c' (p +:+ String_substring_from (String.length p) s)).
  by rewrite <- IH.
Qed.

Lemma bearer_inj (a b : string) :
  Some ("Bearer " +:+ a) = Some ("Bearer " +:+ b) -> a = b.
Proof. intros [= Heq]. exact Heq. Qed.

End Authentication_facts.

(** X13.  The bearer hook lets a request through exactly when its
    Authorization header is the word Bearer, one space, and the configured
    token, character for character.  Every other request is answered 401:
    with the text Invalid token when the header starts with Bearer and a
    space, with the text Bearer token required otherwise, also when the
    header is missing or empty. *)
Theorem verifyBearerToken_exact `{JsRuntime} (config : Config.t)
    (authorization : option string) :
  (verifyBearerToken config authorization = Pass
   <-> exists token,
         Config.bearer_token (Config.auth config) = Some token
         /\ authorization = Some ("Bearer " +:+ token))
  /\ (verifyBearerToken config authorization = Unauthorized "Unauthorized: Invalid token"
      <-> exists token,
            authorization = Some ("Bearer " +:+ token)
            /\ Config.bearer_token (Config.auth config) <> Some token)
  /\ (verifyBearerToken config authorization
      = Unauthorized "Unauthorized: Bearer token required"
      <-> forall token, authorization <> Some ("Bearer " +:+ token)).
Proof.
  unfold verifyBearerToken.
  destruct authorization as [authHeader|].
  2:{ split; [|split]; (split; [done|]);
      [by intros (? & _ & ?)|by intros (? & ? & _)|done]. }
  destruct (String.prefix "Bearer " authHeader) eqn:Hprefix.
  - apply prefix_inv in Hprefix. simpl String.length in Hprefix.
    remember (String_substring_from 7 authHeader) as token eqn:Htoken.
    clear Htoken. subst authHeader.
    assert (truthy ("Bearer " +:+ token) = true) as ->
      by (unfold truthy; by rewrite bool_decide_eq_false_2).
    simpl. case_decide as Htoken.
    + split; [|split].
      * split; [by eauto|done].
      * split; [done|]. intros (token' & ->%bearer_inj & Hne). congruence.
      * split; [done|]. intros Hnone. by destruct (Hnone token).
    + split; [|split].
      * split; [done|]. intros (token' & Hconf & ->%bearer_inj). congruence.
      * split; [|done]. intros _. exists token. split; [done|congruence].
      * split; [done|]. intros Hnone. by destruct (Hnone token).
  - assert (Hnone : forall token, Some authHeader <> Some ("Bearer " +:+ token)).
    { intros token [= ->]. by rewrite prefix_append in Hprefix. }
    rewrite orb_true_r.
    split; [|split]; (split; [done|]); try done.
    + intros (token & _ & Heq). by destruct (Hnone token).
    + intros (token & Heq & _). by destruct (Hnone token).
Qed.

Lemma logger_truthy (name : string) :
  entryTruthy (logger name) = true
  <-> name ∈ "development" :: "production" :: Object_prototype_names.
Proof.
  unfold logger.
  destruct (decide (name = "development")) as [->|Hdevelopment];
    [by split; [intros _; left|]|].
  destruct (decide (name = "production")) as [->|Hproduction];
    [by split; [intros _; right; left|]|].
  rewrite !elem_of_cons.
  destruct (decide (name = "test")) as [->|Htest].
  - simpl. split; [done|]. unfold Object_prototype_names.
    rewrite !elem_of_cons, elem_of_nil. intros Hin.
    repeat (destruct Hin as [Hin|Hin]; [discriminate Hin|]). done.
  - destruct (decide (name ∈ Object_prototype_names)) as [Hin|Hout]; simpl.
    + split; [by intros _; right; right|done].
    + split; [done|]. by intros [?|[?|?]].
Qed.

(** X14.  How [start] goes, read off the environment.  It throws the error
    of [loadConfig] when that fails; it throws Invalid env and the name when
    the table of loggers has no truthy entry under NODE_ENV: that is every
    name but development, production and the names of the properties every
    object inherits, and also the name test, whose entry is false; it throws
    what the constructor of the server throws.  Otherwise it puts in front of
    the metrics route the bearer guard exactly when AUTH_BEARER_TOKEN is set
    and not empty, whatever the user name and password are; else the basic
    guard exactly when AUTH_USERNAME and AUTH_PASSWORD are both set and not
    empty; else none.  The validation of the basic guard accepts exactly the
    configured pair. *)
Theorem start_guard `{JsRuntime} (fastify : tableEntry -> option exn)
    (env : gmap string string) :
  (forall error, loadConfig env = inl error -> start fastify env = Throws error)
  /\ (forall config, loadConfig env = inr config ->
      let ready :=
        entryTruthy (logger (Config.env config)) = true
        /\ fastify (logger (Config.env config)) = None in
      (entryTruthy (logger (Config.env config)) = true
       <-> Config.env config
           ∈ "development" :: "production" :: Object_prototype_names)
      /\ (entryTruthy (logger (Config.env config)) = false ->
          start fastify env = Throws (Error ("Invalid env: " +:+ Config.env config)))
      /\ (Config.env config = "test" ->
          start fastify env = Throws (Error "Invalid env: test"))
      /\ (forall error,
            entryTruthy (logger (Config.env config)) = true ->
            fastify (logger (Config.env config)) = Some error ->
            start fastify env = Throws error)
      /\ (start fastify env = Registers BearerGuard
          <-> ready /\ truthyOption (env !! "AUTH_BEARER_TOKEN") = true)
      /\ (start fastify env = Registers BasicGuard
          <-> ready
              /\ truthyOption (env !! "AUTH_BEARER_TOKEN") = false
              /\ truthyOption (env !! "AUTH_USERNAME") = true
              /\ truthyOption (env !! "AUTH_PASSWORD") = true)
      /\ (start fastify env = Registers NoGuard
          <-> ready
              /\ truthyOption (env !! "AUTH_BEARER_TOKEN") = false
              /\ (truthyOption (env !! "AUTH_USERNAME") = false
                  \/ truthyOption (env !! "AUTH_PASSWORD") = false))
      /\ (forall username password,
            validateBasicAuth config username password = None
            <-> env !! "AUTH_USERNAME" = Some username
                /\ env !! "AUTH_PASSWORD" = Some password)
      /\ (forall username password,
            validateBasicAuth config username password = None
            \/ validateBasicAuth config username password
               = Some (Error "Invalid credentials"))).
Proof.
  split; [by intros error Hload; unfold start; rewrite Hload|].
  intros config Hload ready.
  assert (Hauth : Config.auth config
                  = Config.mkAuth (env !! "AUTH_USERNAME") (env !! "AUTH_PASSWORD")
                      (env !! "AUTH_BEARER_TOKEN")).
  { unfold loadConfig in Hload.
    destruct (requiredEnvVar env "NODE_ENV"); [done|].
    destruct (requiredEnvVar env "RENDER_API_TOKEN"); [done|].
    by injection Hload as <-. }
  split; [apply logger_truthy|].
  unfold ready, start, validateBasicAuth. rewrite Hload, Hauth. simpl.
  split; [by intros ->|]. split; [by intros ->|].
  split; [by intros error -> ->|].
  destruct (entryTruthy (logger (Config.env config))); simpl.
  2:{ repeat split; try done; try (by intros [[? _] _]);
        try (intros username password);
        try (destruct (bool_decide_reflect (Some username = env !! "AUTH_USERNAME"));
             destruct (bool_decide_reflect (Some password = env !! "AUTH_PASSWORD"));
             simpl; try done; try (by intros [? ?]); try congruence; by eauto). }
  destruct (fastify (logger (Config.env config))) as [error|].
  { repeat split; try done; try (by intros [[_ ?] _]);
      try (intros username password);
      try (destruct (bool_decide_reflect (Some username = env !! "AUTH_USERNAME"));
           destruct (bool_decide_reflect (Some password = env !! "AUTH_PASSWORD"));
           simpl; try done; try (by intros [? ?]); try congruence; by eauto). }
  split; [|split; [|split; [|split]]].
  - destruct (truthyOption (env !! "AUTH_BEARER_TOKEN")); [done|].
    destruct (truthyOption (env !! "AUTH_USERNAME") &&
              truthyOption (env !! "AUTH_PASSWORD"));
      by split; [|intros [_ ?]].
  - destruct (truthyOption (env !! "AUTH_BEARER_TOKEN"));
      [by split; [|intros (_ & ? & _)]|].
    destruct (truthyOption (env !! "AUTH_USERNAME"));
      destruct (truthyOption (env !! "AUTH_PASSWORD")); simpl;
      split; try done; by intros (_ & _ & ? & ?).
  - destruct (truthyOption (env !! "AUTH_BEARER_TOKEN"));
      [by split; [|intros (_ & ? & _)]|].
    destruct (truthyOption (env !! "AUTH_USERNAME"));
      destruct (truthyOption (env !! "AUTH_PASSWORD")); simpl;
      split; try done; try (by intros (_ & _ & [?|?])); by eauto.
  - intros username password.
    destruct (bool_decide_reflect (Some username = env !! "AUTH_USERNAME"));
      destruct (bool_decide_reflect (Some password = env !! "AUTH_PASSWORD"));
      simpl; split; try done; try (by intros [? ?]); congruence.
  - intros username password.
    by destruct (_ || _); [right|left].
Qed.

Lemma start_guard_witness :
  @start integerRuntime fastifyAccepts bearerEnv = Registers BearerGuard
  /\ @start integerRuntime fastifyAccepts testEnv
     = Throws (Error "Invalid env: test").
Proof.
  destruct (@start_guard integerRuntime fastifyAccepts bearerEnv) as [_ Hbearer].
  destruct (@start_guard integerRuntime fastifyAccepts testEnv) as [_ Htest].
  specialize (Hbearer (@Config.mk integerRuntime "production" "token" 3000%Z
                         EmptyString 50
                         (Config.mkAuth (Some "admin") None (Some "s3cret")))).
  specialize (Htest (@Config.mk integerRuntime "test" "token" 3000%Z EmptyString 50
                       (Config.mkAuth (Some "admin") None (Some "s3cret")))).
  cbv zeta in Hbearer, Htest.
  destruct Hbearer as (_ & _ & _ & _ & [_ Hguard] & _); [vm_compute; reflexivity|].
  destruct Htest as (_ & _ & Hinvalid & _); [vm_compute; reflexivity|].
  split; [|by apply Hinvalid].
  apply Hguard. vm_compute. repeat split; reflexivity.
Defined.

(** The bearer hook on the configuration of the example, executed. *)
Example verifyBearerToken_example :
  let config := @Config.mk integerRuntime "production" "token" 3000%Z EmptyString 50
                  (Config.mkAuth (Some "admin") None (Some "s3cret")) in
  @verifyBearerToken integerRuntime config (Some "Bearer s3cret") = Pass
  /\ @verifyBearerToken integerRuntime config (Some "Bearer s3cret ")
     = Unauthorized "Unauthorized: Invalid token"
  /\ @verifyBearerToken integerRuntime config (Some "bearer s3cret")
     = Unauthorized "Unauthorized: Bearer token required"
  /\ @verifyBearerToken integerRuntime config None
     = Unauthorized "Unauthorized: Bearer token required".
Proof. vm_compute. repeat split; reflexivity. Qed.

(** ** The order of the upstream labels *)

Lemma Permutation_short {A : Type} (l1 l2 : list A) :
  l1 ≡ₚ l2 -> length l1 <= 1 -> l1 = l2.
Proof.
  intros Hperm Hlen. destruct l1 as [|x [|y l1]]; simpl in Hlen; [| |lia].
  - by apply Permutation_nil_l in Hperm.
  - by apply Permutation_singleton_l in Hperm.
Qed.

(** At most one element of a list is picked when the picked elements share a
    key and keys do not repeat. *)
Lemma omap_keyed_short {A B K : Type} (key : A -> option K) (pick : A -> option B)
    (k : K) (l : list A) :
  NoDup (omap key l) ->
  (forall x y, pick x = Some y -> key x = Some k) ->
  length (omap pick l) <= 1.
Proof.
  intros Hnodup Hpick.
  assert (Hnone : forall l', k ∉ omap key l' -> omap pick l' = []).
  { intros l' Hk. induction l' as [|x l' IH]; [done|].
    change (omap pick (x :: l'))
      with (match pick x with Some y => y :: omap pick l' | None => omap pick l' end).
    change (omap key (x :: l'))
      with (match key x with Some y => y :: omap key l' | None => omap key l' end)
      in Hk.
    destruct (pick x) as [y|] eqn:Hx.
    - rewrite (Hpick _ _ Hx) in Hk. set_solver.
    - apply IH. destruct (key x); set_solver. }
  induction l as [|x l IH]; [simpl; lia|].
  change (omap pick (x :: l))
    with (match pick x with Some y => y :: omap pick l | None => omap pick l end).
  change (omap key (x :: l))
    with (match key x with Some y => y :: omap key l | None => omap key l end)
    in Hnodup.
  destruct (pick x) as [y|] eqn:Hx.
  - rewrite (Hpick _ _ Hx) in Hnodup. apply NoDup_cons in Hnodup as [Hk _].
    rewrite (Hnone l Hk). simpl. lia.
  - apply IH. destruct (key x); [by apply NoDup_cons in Hnodup as [_ ?]|done].
Qed.

Lemma find_head_omap {A : Type} (test : A -> bool) (l : list A) :
  List.find test l = head (omap (fun x => if test x then Some x else None) l).
Proof.
  induction l as [|x l IH]; [done|].
  change (omap (fun x => if test x then Some x else None) (x :: l))
    with (match (if test x then Some x else None) with
          | Some y => y :: omap (fun x => if test x then Some x else None) l
          | None => omap (fun x => if test x then Some x else None) l
          end).
  simpl. by destruct (test x).
Qed.

Lemma Object_get_elem (o : JsObject) key val :
  NoDup o.*1 -> (key, val) ∈ o <-> Object_get o key = Some val.
Proof.
  induction o as [|[k v] o IH]; simpl; intros Hnodup;
    [by split; [intros ?%elem_of_nil|]|].
  apply NoDup_cons in Hnodup as [Hk Hnodup]. rewrite elem_of_cons, (IH Hnodup).
  case_decide as Heq; subst.
  - split.
    + intros [Hpair|Hget]; [congruence|].
      apply IH in Hget; [|done]. exfalso. apply Hk.
      apply list_elem_of_fmap. by exists (key, val).
    + intros [= ->]. by left.
  - split; [|by right]. intros [Hpair|?]; [congruence|done].
Qed.

(** Objects with the same properties are permutations of one another. *)
Lemma Object_get_Permutation (o1 o2 : JsObject) :
  NoDup o1.*1 -> NoDup o2.*1 ->
  (forall key, Object_get o1 key = Object_get o2 key) ->
  o1 ≡ₚ o2.
Proof.
  intros Hnodup1 Hnodup2 Hget.
  apply NoDup_Permutation; [by eapply NoDup_fmap_1..|].
  intros [key val]. by rewrite !Object_get_elem, Hget.
Qed.

Section Label_order.
Context `{JsRuntime}.

Lemma resourceKey_Permutation (upstream1 upstream2 : list MetricLabel.t) :
  upstream1 ≡ₚ upstream2 ->
  NoDup (omap MetricLabel.field upstream1) ->
  resourceKey upstream1 = resourceKey upstream2.
Proof.
  intros Hperm Hnodup. unfold resourceKey. rewrite !find_head_omap.
  do 3 f_equal. apply Permutation_short; [by rewrite Hperm|].
  apply (omap_keyed_short MetricLabel.field _ "resource"); [done|].
  intros x y. destruct (bool_decide_reflect (MetricLabel.field x = Some "resource"));
    [by intros _|done].
Qed.

Lemma upstreamValue_Permutation (upstream1 upstream2 : list MetricLabel.t) key :
  upstream1 ≡ₚ upstream2 ->
  NoDup (omap MetricLabel.field upstream1) ->
  upstreamValue upstream1 key = upstreamValue upstream2 key.
Proof.
  intros Hperm Hnodup. unfold upstreamValue.
  f_equal. apply Permutation_short; [by rewrite Hperm|].
  apply (omap_keyed_short MetricLabel.field _ key); [done|].
  intros label value. unfold copied.
  destruct (MetricLabel.field label) as [f|]; [|done].
  destruct (MetricLabel.value label); [|done].
  destruct (_ && _); [|done]. by case_decide; [subst|].
Qed.

End Label_order.

(** X15.  The line of a point does not depend on the order in which the
    upstream lists the labels of its series.  For two series with the same
    unit and data points whose labels are the same in another order, no field
    occurring twice, the merged points format to the same line.
    [localeCompare] is taken as a consistent comparator, and no two different
    keys of the merged label object compare equal under it. *)
Theorem toMetricValue_label_order `{JsRuntime} (serviceMap : gmap string Service.t)
    (metric1 metric2 : MetricResponse.t) (upstream1 upstream2 : list MetricLabel.t)
    (point1 point2 : MetricValue.t) (metricName : string) :
  consistent localeCompare ->
  MetricResponse.labels metric1 = Some upstream1 ->
  MetricResponse.labels metric2 = Some upstream2 ->
  upstream1 ≡ₚ upstream2 ->
  NoDup (omap MetricLabel.field upstream1) ->
  MetricResponse.unit metric1 = MetricResponse.unit metric2 ->
  MetricResponse.values metric1 = MetricResponse.values metric2 ->
  toMetricValue serviceMap metric1 = Some point1 ->
  toMetricValue serviceMap metric2 = Some point2 ->
  distinctKeys (MetricValue.labels point1) ->
  formatMetricLine metricName point1 = formatMetricLine metricName point2.
Proof.
  intros Hconsistent Hlabels1 Hlabels2 Hperm Hnodup Hunit Hvalues Hpoint1 Hpoint2
    Hdistinct.
  pose proof (toMetricValue_keys _ _ _ Hpoint1) as Hkeys1.
  pose proof (toMetricValue_keys _ _ _ Hpoint2) as Hkeys2.
  apply toMetricValue_Some in Hpoint1 as (u1 & latest1 & Hu1 & _ & Hlast1 & ->).
  apply toMetricValue_Some in Hpoint2 as (u2 & latest2 & Hu2 & _ & Hlast2 & ->).
  rewrite Hlabels1 in Hu1. rewrite Hlabels2 in Hu2.
  injection Hu1 as <-. injection Hu2 as <-.
  rewrite Hvalues, Hlast2 in Hlast1. injection Hlast1 as <-.
  simpl in Hkeys1, Hkeys2, Hdistinct. unfold formatMetricLine, formatLabels. simpl.
  do 3 f_equal.
  set (o1 := foldl copyLabel _ upstream1) in *.
  set (o2 := foldl copyLabel _ upstream2) in *.
  rewrite (sortedLabels_order_independent o1 o2); [done|done| |].
  - apply Object_get_Permutation; [done..|]. intros key. unfold o1, o2.
    rewrite !foldl_copyLabel_get, (upstreamValue_Permutation _ _ key Hperm Hnodup).
    destruct (upstreamValue upstream2 key); [done|]. simpl.
    unfold resolveServiceName.
    by rewrite Hunit, (resourceKey_Permutation _ _ Hperm Hnodup).
  - exact Hdistinct.
Qed.

Lemma toMetricValue_label_order_witness :
  @formatMetricLine integerRuntime "m"
    (@MetricValue.mk integerRuntime
       [("unit", "percent"); ("service_name", "web");
        ("resource", "srv-1"); ("instance", "i-1")] 7%Z)
  = @formatMetricLine integerRuntime "m"
      (@MetricValue.mk integerRuntime
         [("unit", "percent"); ("service_name", "web");
          ("instance", "i-1"); ("resource", "srv-1")] 7%Z).
Proof.
  apply (@toMetricValue_label_order integerRuntime (buildServiceMap exampleServices)
           exampleSeries exampleSeriesSwapped
           [MetricLabel.mk (Some "resource") (Some "srv-1");
            MetricLabel.mk (Some "instance") (Some "i-1")]
           [MetricLabel.mk (Some "instance") (Some "i-1");
            MetricLabel.mk (Some "resource") (Some "srv-1")]).
  - exact codeUnitCompare_consistent.
  - reflexivity.
  - reflexivity.
  - apply Permutation_swap.
  - apply NoDup_cons. split; [|apply NoDup_singleton].
    intros Hin%list_elem_of_singleton. discriminate Hin.
  - reflexivity.
  - reflexivity.
  - vm_compute. reflexivity.
  - vm_compute. reflexivity.
  - repeat constructor; vm_compute; congruence.
Defined.

(** ** Collection and formatting together *)

(** X16.  The block of a successful collection carries one name throughout:
    the HELP line, the TYPE line and every value line use the base name
    with the unit suffix, and the help text and the type are those of the
    base definition.  The block is never empty. *)
Theorem collectMetrics_block `{JsRuntime} (services : list Service.t)
    (apiToken : string) (batchSize : nat) (metricFn : MetricFn)
    (metricDefinition : loc) (startTime : option string) (w w' : world)
    (result : MetricResult.t) :
  collectMetrics services apiToken batchSize metricFn metricDefinition startTime w
  = (w', Fulfilled result) ->
  exists first rest unit,
    MetricResult.values result = first :: rest
    /\ Object_get (MetricValue.labels first) "unit" = Some unit
    /\ formatMetricResult w' result
       = formatMetricHeader
           (MetricDefinition.mk
              (MetricDefinition.name (deref w metricDefinition) +:+ "_" +:+ unit)
              (MetricDefinition.help (deref w metricDefinition))
              (MetricDefinition.type (deref w metricDefinition)))
         +:+ formatMetricValues
               (MetricDefinition.name (deref w metricDefinition) +:+ "_" +:+ unit)
               (first :: rest)
    /\ formatMetricResult w' result <> EmptyString.
Proof.
  intros (idBatches & allMetricsResults & first & rest & unit & _ & _ & _
          & Hunit & -> & ->)%collectMetrics_Fulfilled.
  exists first, rest, unit. split; [done|]. split; [done|].
  assert (Hblock : forall w0 (r : MetricResult.t),
            MetricResult.values r <> [] -> formatMetricResult w0 r <> EmptyString)
    by apply formatMetricResult_not_empty.
  split; [|by apply Hblock].
  unfold formatMetricResult. simpl. by rewrite deref_fresh.
Qed.

Lemma collectMetrics_block_witness :
  exists block,
    @formatMetricResult integerRuntime
      (@collectMetrics integerRuntime exampleServices "token" 50 exampleFn 0 None
         exampleWorld).1
      (@MetricResult.mk integerRuntime 1
         [@MetricValue.mk integerRuntime
            [("unit", "percent"); ("service_name", "web");
             ("resource", "srv-1"); ("instance", "i-1")] 7%Z])
    = block
    /\ String.prefix "# HELP render_service_cpu_usage_percent CPU usage" block = true.
Proof.
  destruct (@collectMetrics_block integerRuntime exampleServices "token" 50
              exampleFn 0 None exampleWorld
              (@collectMetrics integerRuntime exampleServices "token" 50 exampleFn
                 0 None exampleWorld).1
              (@MetricResult.mk integerRuntime 1
                 [@MetricValue.mk integerRuntime
                    [("unit", "percent"); ("service_name", "web");
                     ("resource", "srv-1"); ("instance", "i-1")] 7%Z]))
    as (first & rest & unit & Hvalues & Hunit & Hblock & _).
  - vm_compute. reflexivity.
  - eexists. split; [exact Hblock|].
    simpl in Hvalues. injection Hvalues as <- <-. simpl in Hunit.
    injection Hunit as <-. vm_compute. reflexivity.
Defined.

(** ** Edge cases of a scrape *)

Section Scrape_edges.
Context `{JsRuntime}.
Implicit Types (services : list Service.t) (w : world).

Lemma formatMetricResult_frame w (w' : world) (result : MetricResult.t) d :
  heap w !! MetricResult.definition result = Some d ->
  heap w `prefix_of` heap w' ->
  formatMetricResult w' result = formatMetricResult w result.
Proof.
  intros Hd Hprefix. unfold formatMetricResult, deref.
  by rewrite (prefix_lookup_Some _ _ _ _ Hd Hprefix), Hd.
Qed.

Lemma launch_heap_prefix {A : Type} (ms : list (Async A)) w :
  Forall (fun m : Async A => forall w0, heap w0 `prefix_of` heap (m w0).1) ms ->
  heap w `prefix_of` heap (launch ms w).1.
Proof.
  intros Hms. revert w. induction Hms as [|m ms Hm _ IH]; intros w; [done|].
  simpl. specialize (Hm w). destruct (m w) as [w1 p]. specialize (IH w1).
  destruct (launch ms w1) as [w2 ps]. simpl in *. by etrans.
Qed.

Lemma alloc_collectMetrics_prefix services apiToken batchSize (metricFn : MetricFn)
    startTime d w :
  heap w `prefix_of`
    heap (collectMetrics services apiToken batchSize metricFn (length (heap w))
            startTime (mkWorld (heap w ++ [d]) (calls w) (Date_now w))).1.
Proof.
  etrans; [|apply collectMetrics_heap_prefix]. simpl. by apply prefix_app_r.
Qed.

Lemma familyCollectors_heap_prefix (config : Config.t) (api : RenderApi) services :
  Forall (fun m : Async MetricResult.t =>
            forall w0, heap w0 `prefix_of` heap (m w0).1)
    (familyCollectors config api services).
Proof.
  unfold familyCollectors.
  repeat (apply Forall_cons; split); try apply Forall_nil_2; intros w0;
    try apply alloc_collectMetrics_prefix.
  - unfold collectServiceCountMetric, alloc. simpl. by apply prefix_app_r.
  - unfold collectBandwidth. simpl. case_decide.
    + simpl. by apply prefix_app_r.
    + apply alloc_collectMetrics_prefix.
  - unfold collectActiveConnections. simpl. case_decide.
    + simpl. by apply prefix_app_r.
    + apply alloc_collectMetrics_prefix.
Qed.

Lemma serviceCount_format services w :
  formatMetricResult (collectServiceCountMetric services w).1
    (collectServiceCountMetric services w).2
  = serviceCountBlock (length services)
  /\ heap (collectServiceCountMetric services w).1
       !! MetricResult.definition (collectServiceCountMetric services w).2
     = Some (MetricDefinition.mk "render_service_count" "Total number of services"
               "gauge").
Proof.
  unfold collectServiceCountMetric, alloc, serviceCountBlock. simpl. split.
  - unfold formatMetricResult. simpl. rewrite deref_fresh. reflexivity.
  - by rewrite list_lookup_middle.
Qed.

End Scrape_edges.

Section Scrape_count.
Context `{JsRuntime}.





Lemma serviceCountBlock_not_empty (n : nat) : serviceCountBlock n <> EmptyString.
Proof. done. Qed.

End Scrape_count.



Section No_resources.
Context `{JsRuntime}.

Lemma chunkArray_nil {T : Type} (chunkSize : nat) :
  chunkArray (@nil T) chunkSize = Some [].
Proof. reflexivity. Qed.

Lemma collectMetrics_nil apiToken batchSize (metricFn : MetricFn)
    (metricDefinition : loc) startTime (w : world) :
  collectMetrics [] apiToken batchSize metricFn metricDefinition startTime w
  = (w, Rejected (Error (emptyResultMessage metricFn []))).
Proof.
  rewrite collectMetrics_unfold.
  change (map Service.id []) with (@nil string). rewrite chunkArray_nil.
  destruct w as [objects log now]. unfold log_calls, batchCalls. simpl.
  by rewrite app_nil_r.
Qed.

End No_resources.

Lemma launch_cons_eq `{JsRuntime} {A : Type} (m : Async A) (ms : list (Async A))
    (w w1 w2 : world) p ps :
  m w = (w1, p) -> launch ms w1 = (w2, ps) -> launch (m :: ms) w = (w2, p :: ps).
Proof. intros Hm Hms. simpl. by rewrite Hm, Hms. Qed.

Lemma familyCollectors_nil `{JsRuntime} (config : Config.t) (api : RenderApi)
    (w : world) :
  exists (w' : world) e1 count e3 e4 bandwidth connections,
    launch (familyCollectors config api []) w
    = (w', [Rejected e1; Fulfilled count; Rejected e3; Rejected e4;
            Fulfilled bandwidth; Fulfilled connections])
    /\ calls w' = calls w
    /\ formatMetricResult w' count = serviceCountBlock 0
    /\ MetricResult.values bandwidth = []
    /\ MetricResult.values connections = [].
Proof.
  unfold familyCollectors. do 7 eexists. split; [|split; [|split]].
  - eapply launch_cons_eq.
    { unfold collectInstanceCountMetrics. cbn [alloc]. apply collectMetrics_nil. }
    eapply launch_cons_eq.
    { unfold collectServiceCountMetric. cbn [alloc]. reflexivity. }
    eapply launch_cons_eq.
    { unfold collectCPUMetrics. cbn [alloc]. apply collectMetrics_nil. }
    eapply launch_cons_eq.
    { unfold collectMemoryMetrics. cbn [alloc]. apply collectMetrics_nil. }
    eapply launch_cons_eq.
    { unfold collectBandwidth. cbn [alloc List.filter length]. reflexivity. }
    eapply launch_cons_eq.
    { unfold collectActiveConnections. cbn [alloc List.filter length]. reflexivity. }
    reflexivity.
  - reflexivity.
  - pose proof (serviceCount_format [] (alloc (MetricDefinition.mk
                  "render_service_instance_count"
                  "Current number of instances for a Render service" "gauge") w).2)
      as [Hblock Hdefinition].
    unfold collectServiceCountMetric in Hblock, Hdefinition.
    cbn [alloc fst snd] in Hblock, Hdefinition.
    etrans; [|exact Hblock]. eapply formatMetricResult_frame; [exact Hdefinition|].
    cbn [heap]. by do 4 apply prefix_app_r.
  - done.
Qed.

(** X18.  A scrape that finds no resource issues no metric query: the three
    collectors that query every resource fail on their empty result, the two
    filtered ones return an empty family, and the reply is 200 with a body
    that is the block of the service count alone, with the count 0.  This
    holds for every batch size. *)
Theorem metrics_no_resources `{JsRuntime} (config : Config.t) (api : RenderApi)
    (w : world) :
  getServices api (Config.renderApiToken config) (Config.serviceNameFilter config)
  = Resolves [] ->
  exists w' : world,
    metrics config api w
    = (w', Fulfilled
             (Reply.mk 200 [("Content-Type", "text/plain")] (serviceCountBlock 0)))
    /\ calls w' = calls w.
Proof.
  intros Hservices.
  destruct (familyCollectors_nil config api w)
    as (w' & e1 & count & e3 & e4 & bandwidth & connections
        & Hlaunch & Hcalls & Hcount & Hbandwidth & Hconnections).
  exists w'. split; [|done].
  unfold metrics. rewrite Hservices, launchedCollectors_caught, Hlaunch.
  cbn [fst snd map catchOutcome Promise_all]. f_equal. f_equal.
  unfold respond, metricsOutput, nonNull.
  change (omap id [None; Some count; None; None; Some bandwidth; Some connections])
    with [count; bandwidth; connections].
  case_decide; [done|]. f_equal.
  assert (Hempty : forall r : MetricResult.t,
            MetricResult.values r = [] -> formatMetricResult w' r = EmptyString).
  { intros r Hr. unfold formatMetricResult. rewrite Hr. by case_decide. }
  cbn [map]. rewrite Hcount, (Hempty _ Hbandwidth), (Hempty _ Hconnections).
  reflexivity.
Qed.

Lemma metrics_no_resources_witness :
  exists w' : world,
    @metrics integerRuntime exampleConfig emptyApi exampleWorld
    = (w', Fulfilled
             (Reply.mk 200 [("Content-Type", "text/plain")]
                (@serviceCountBlock integerRuntime 0)))
    /\ calls w' = calls exampleWorld.
Proof.
  apply (@metrics_no_resources integerRuntime exampleConfig emptyApi exampleWorld).
  vm_compute. reflexivity.
Defined.

(** ** The reply when every upstream collector fails *)

Lemma familyCollectors_launch `{JsRuntime} (config : Config.t) (api : RenderApi)
    (services : list Service.t) (w : world) :
  exists (w' : world) first count later,
    launch (familyCollectors config api services) w
    = (w', first :: Fulfilled count :: later)
    /\ formatMetricResult w' count = serviceCountBlock (length services).
Proof.
  pose proof (familyCollectors_heap_prefix config api services) as Hprefix.
  unfold familyCollectors in *.
  apply Forall_cons in Hprefix as [_ [_ Hprefix]%Forall_cons].
  match type of Hprefix with Forall _ ?ms => set (rest := ms) in * end.
  destruct (collectInstanceCountMetrics api services (Config.renderApiToken config)
              (Config.batchSize config) w) as [w1 first] eqn:Hfirst.
  pose proof (serviceCount_format services w1) as [Hblock Hdefinition].
  destruct (collectServiceCountMetric services w1) as [w2 count] eqn:Hcount.
  cbn [fst snd] in *.
  pose proof (launch_heap_prefix rest w2 Hprefix) as Hheap.
  destruct (launch rest w2) as [w' later] eqn:Hrest. cbn [fst snd] in Hheap.
  exists w', first, count, later. split.
  - eapply launch_cons_eq; [exact Hfirst|].
    eapply launch_cons_eq; [|exact Hrest]. cbv beta. by rewrite Hcount.
  - by rewrite (formatMetricResult_frame w2 w' count _ Hdefinition Hheap).
Qed.

Lemma metrics_blocks `{JsRuntime} (config : Config.t) (api : RenderApi)
    (services : list Service.t) (w : world) :
  1 <= Config.batchSize config ->
  getServices api (Config.renderApiToken config) (Config.serviceNameFilter config)
  = Resolves services ->
  exists (w' : world) first count later,
    launch (familyCollectors config api services) w
    = (w', first :: Fulfilled count :: later)
    /\ Forall hasSettled (first :: Fulfilled count :: later)
    /\ metrics config api w
       = (w', Fulfilled
                (Reply.mk 200 [("Content-Type", "text/plain")]
                   (Array_join LF
                      (familyBlock w' first
                       ++ serviceCountBlock (length services)
                       :: concat (map (familyBlock w') later))))).
Proof.
  intros HB Hservices.
  pose proof (launch_settled (familyCollectors config api services) w
                (familyCollectors_settle config api services HB)) as Hsettled.
  pose proof (familyCollectors_not_all_failed config api services w) as Hsome.
  destruct (respond_spec (launch (familyCollectors config api services) w).1
              _ Hsettled) as (_ & _ & Hrespond).
  destruct (Hrespond Hsome) as (Hreply & _ & _). clear Hrespond Hsome.
  destruct (familyCollectors_launch config api services w)
    as (w' & first & count & later & Hlaunch & Hblock).
  exists w', first, count, later.
  unfold metrics. rewrite Hservices, launchedCollectors_caught.
  rewrite Hlaunch in Hsettled, Hreply |- *. cbn [fst snd] in *.
  split; [done|]. split; [done|].
  rewrite Promise_all_caught, Hreply by done.
  change (concat (map (familyBlock w') (first :: Fulfilled count :: later)))
    with (familyBlock w' first
          ++ familyBlock w' (Fulfilled count) ++ concat (map (familyBlock w') later)).
  unfold familyBlock at 2. rewrite Hblock.
  by case_decide as Hempty; [apply serviceCountBlock_not_empty in Hempty|].
Qed.

Lemma familyBlocks_failed `{JsRuntime} (w : world)
    (outcomes : list (promise MetricResult.t)) :
  Forall (fun outcome => succeeded outcome = false) outcomes ->
  concat (map (familyBlock w) outcomes) = [].
Proof.
  induction 1 as [|outcome outcomes Hfailed _ IH]; [done|].
  simpl. rewrite IH. by destruct outcome.
Qed.

(** C1.  When the fetch of the resource list succeeds the handler cannot
    answer 500: the count of services is among the results as a plain
    object, never null, so the results are never all null and the branch
    that answers 500 is never taken.  When every collector that queries the
    upstream fails, and so only the second of the six launched collectors,
    the count, succeeds, the handler answers 200 with Content-Type text/plain
    and a body that is the block of the service count alone. *)
Theorem metrics_all_collectors_failed `{JsRuntime} (config : Config.t)
    (api : RenderApi) (services : list Service.t) (w : world) :
  1 <= Config.batchSize config ->
  getServices api (Config.renderApiToken config) (Config.serviceNameFilter config)
  = Resolves services ->
  map succeeded (launch (familyCollectors config api services) w).2
  = [false; true; false; false; false; false] ->
  Forall failed (delete 1 (launch (familyCollectors config api services) w).2)
  /\ (metrics config api w).2
     = Fulfilled
         (Reply.mk 200 [("Content-Type", "text/plain")]
            (serviceCountBlock (length services))).
Proof.
  intros HB Hservices Hsucceeded.
  destruct (metrics_blocks config api services w HB Hservices)
    as (w' & first & count & later & Hlaunch & Hsettled & ->).
  rewrite Hlaunch in Hsucceeded |- *. cbn [fst snd map succeeded] in *.
  injection Hsucceeded as Hfirst Hlater.
  apply Forall_cons in Hsettled as [Hsettled1 [_ Hsettled]%Forall_cons].
  assert (Hrejected : forall outcome : promise MetricResult.t,
            hasSettled outcome -> succeeded outcome = false -> failed outcome).
  { intros [result|e|] Hs Hf; [done|by exists e|done]. }
  assert (Hall : Forall (fun outcome : promise MetricResult.t =>
                           succeeded outcome = false) later).
  { destruct later as [|p3 [|p4 [|p5 [|p6 [|p7 later]]]]]; try discriminate Hlater.
    injection Hlater as H3 H4 H5 H6. by repeat (apply Forall_cons; split). }
  split.
  - apply Forall_cons. split; [by apply Hrejected|].
    apply Forall_forall. intros outcome Hin.
    rewrite Forall_forall in Hsettled, Hall. apply Hrejected; auto.
  - rewrite familyBlocks_failed by done.
    by destruct first.
Qed.

Lemma metrics_all_collectors_failed_witness :
  map succeeded
    (launch (@familyCollectors integerRuntime exampleConfig outageApi
               exampleServices) exampleWorld).2
  = [false; true; false; false; false; false]
  /\ (@metrics integerRuntime exampleConfig outageApi exampleWorld).2
     = Fulfilled
         (Reply.mk 200 [("Content-Type", "text/plain")]
            (@serviceCountBlock integerRuntime 2)).
Proof.
  assert (Hsucceeded :
            map succeeded
              (launch (@familyCollectors integerRuntime exampleConfig outageApi
                         exampleServices) exampleWorld).2
            = [false; true; false; false; false; false])
    by (vm_compute; reflexivity).
  split; [exact Hsucceeded|].
  apply (@metrics_all_collectors_failed integerRuntime exampleConfig outageApi
           exampleServices exampleWorld).
  - vm_compute. lia.
  - reflexivity.
  - exact Hsucceeded.
Defined.

(** The scrape during the outage, executed: the reply is 200 and its body
    is the count of the two services. *)
Example metrics_outage :
  (@metrics integerRuntime exampleConfig outageApi exampleWorld).2
  = Fulfilled
      (Reply.mk 200 [("Content-Type", "text/plain")]
         ("# HELP render_service_count Total number of services" +:+ LF
          +:+ "# TYPE render_service_count gauge" +:+ LF
          +:+ "render_service_count{} 2" +:+ LF)).
Proof. vm_compute. reflexivity. Qed.

(** X19.  With the batch size 0 and at least one service, the loop of
    [chunkArray] never exits: no number of iterations is enough.  The
    collection then never settles, and it has issued no upstream query and
    created no object. *)
Theorem collectMetrics_zero_batch `{JsRuntime} (services : list Service.t)
    (apiToken : string) (metricFn : MetricFn) (metricDefinition : loc)
    (startTime : option string) (w : world) :
  services <> [] ->
  (forall fuel chunks,
     chunkArray_loop fuel (map Service.id services) 0 0 chunks = None)
  /\ collectMetrics services apiToken 0 metricFn metricDefinition startTime w
     = (w, Pending).
Proof.
  intros Hne.
  assert (Hids : map Service.id services <> []) by by destruct services.
  split.
  - intros fuel chunks. by apply chunkArray_loop_zero.
  - rewrite collectMetrics_unfold. by rewrite chunkArray_zero.
Qed.

Lemma collectMetrics_zero_batch_witness :
  (forall fuel chunks,
     chunkArray_loop fuel (map Service.id exampleServices) 0 0 chunks = None)
  /\ @collectMetrics integerRuntime exampleServices "token" 0 exampleFn 0 None
       exampleWorld
     = (exampleWorld, Pending).
Proof.
  apply (@collectMetrics_zero_batch integerRuntime exampleServices "token"
           exampleFn 0 None exampleWorld).
  vm_compute. discriminate.
Defined.
